(** * QuranReciter service worker: request classification and caching strategies

    Shallow embedding of [service-worker.js].  The install, the activate
    and the fetch listener of the worker are written as programs of a
    small monad that threads the worker's [CacheStorage] and records every
    platform call (cache open / match / put / delete, fetch, console
    output) in an event trace.

    Platform contract used by the embedding (Cache API and Fetch API):
    - a cache is a finite map from the URL of the stored request to a
      response; the fragment of a URL is not part of the key;
    - [cache.match] and [cache.put] handle GET requests only: [match] of
      a request with another method resolves to [undefined], [put] of such
      a request rejects;
    - [cache.put] may reject for reasons of the storage itself (quota);
    - [cache.add] fetches its argument and puts the response; it rejects
      when the fetch rejects or the status is not an ok status or is 206;
    - URL parsing is the platform's: the install listener takes the parser
      of asset strings as a parameter;
    - [fetch] resolves, rejects, or never settles;
    - [Vary] headers are not modelled: matching ignores request headers. *)

From stdpp Require Import gmap strings list fin_maps.
From Stdlib Require Import ZArith.

Local Open Scope Z_scope.

(** ** JavaScript string predicates *)

(** [s.startsWith(p)] *)
Fixpoint startsWith (s p : string) : bool :=
  match p with
  | EmptyString => true
  | String c p' =>
      match s with
      | EmptyString => false
      | String d s' => if Ascii.eqb c d then startsWith s' p' else false
      end
  end.

(** [s.includes(p)]: [p] occurs somewhere in [s]. *)
Fixpoint includes (s p : string) : bool :=
  startsWith s p ||
  match s with
  | EmptyString => false
  | String _ s' => includes s' p
  end.

(** [s.endsWith(p)]: some suffix of [s] is exactly [p]. *)
Fixpoint endsWith (s p : string) : bool :=
  String.eqb s p ||
  match s with
  | EmptyString => false
  | String _ s' => endsWith s' p
  end.

(** [list.includes(x)] on an array of strings. *)
Definition array_includes (l : list string) (x : string) : bool :=
  existsb (String.eqb x) l.

#[global] Arguments array_includes : simpl never.

(** ** Requests and responses *)

(** A parsed [URL] object; [href] is its serialisation. *)
Record URL := mkURL {
  origin : string;      (* scheme://host[:port] *)
  pathname : string;    (* starts with "/" *)
  search : string;      (* empty, or "?..." *)
  hash : string         (* empty, or "#..." *)
}.

Definition href (u : URL) : string :=
  origin u +:+ pathname u +:+ search u +:+ hash u.

Record Request := mkRequest {
  url : URL;
  method : string;                      (* normalised, upper case *)
  headers : list (string * string);     (* names in lower case *)
  mode : string;
  credentials : string
}.

Record Response := mkResponse {
  status : Z;
  type : string;
  body : string
}.

(** [response.clone()] yields a response with the same contents. *)
Definition clone (r : Response) : Response := r.

(** [headers.delete(name)] *)
Definition headers_delete (name : string) (h : list (string * string))
  : list (string * string) :=
  List.filter (fun kv => negb (String.eqb (fst kv) name)) h.

(** [new URL(path, base)] for an origin [base] and a path that begins
    with a single slash: the URL of that path on that origin.  A path
    that begins with two slashes is a scheme-relative reference, which the
    platform resolves to another host (or refuses); what is proved about
    the resolved URL is proved for paths that do not begin with [//]. *)
Definition resolve (path base : string) : URL :=
  {| origin := base; pathname := path; search := ""; hash := "" |}.

(** ** Cache storage *)

(** The URL under which the Cache API files a request: no fragment. *)
Definition url_key (u : URL) : string :=
  origin u +:+ pathname u +:+ search u.

(** The first argument of [cache.put]: a URL string or a request. *)
Inductive RequestInfo :=
| ByUrl (u : string)
| ByRequest (r : Request).

(** Key addressed by a request: only GET requests address entries. *)
Definition request_key (r : Request) : option string :=
  if String.eqb (method r) "GET" then Some (url_key (url r)) else None.

(** A URL string is turned into a GET request for that URL. *)
Definition info_key (i : RequestInfo) : option string :=
  match i with
  | ByUrl u => Some u
  | ByRequest r => request_key r
  end.

(** Named caches, in creation order (the order of [caches.keys()] and
    of the search done by [caches.match]). *)
Definition CacheStorage := list (string * gmap string Response).

Fixpoint cache_of (name : string) (cs : CacheStorage) : gmap string Response :=
  match cs with
  | [] => ∅
  | (n, c) :: cs' => if String.eqb n name then c else cache_of name cs'
  end.

Definition has_cache (name : string) (cs : CacheStorage) : bool :=
  existsb (fun p => String.eqb (fst p) name) cs.

(** [caches.open(name)] creates the cache when it does not exist. *)
Definition open_cache (name : string) (cs : CacheStorage) : CacheStorage :=
  if has_cache name cs then cs else cs ++ [(name, ∅)].

Fixpoint store_entry (name key : string) (r : Response) (cs : CacheStorage)
  : CacheStorage :=
  match cs with
  | [] => []
  | (n, c) :: cs' =>
      if String.eqb n name then (n, <[key := r]> c) :: cs'
      else (n, c) :: store_entry name key r cs'
  end.

Definition delete_cache (name : string) (cs : CacheStorage) : CacheStorage :=
  List.filter (fun p => negb (String.eqb (fst p) name)) cs.

Definition cache_names (cs : CacheStorage) : list string := map fst cs.

Definition lookup_request (c : gmap string Response) (r : Request)
  : option Response :=
  match request_key r with
  | Some k => c !! k
  | None => None
  end.

(** [caches.match(request)]: the first cache, in order, that has a match. *)
Fixpoint lookup_all (cs : CacheStorage) (r : Request) : option Response :=
  match cs with
  | [] => None
  | (_, c) :: cs' =>
      match lookup_request c r with
      | Some x => Some x
      | None => lookup_all cs' r
      end
  end.

(** ** The world outside the worker *)

Inductive FetchResult :=
| FetchResolved (v : option Response)   (* [None]: a falsy value *)
| FetchRejected (err : string)
| FetchPending.                         (* the promise never settles *)

Record World := mkWorld {
  self_origin : string;                 (* self.location.origin *)
  fetch : Request -> FetchResult;
  put_error : option string             (* the storage rejects writes *)
}.

(** ** Events and the worker monad *)

Inductive Event :=
| EOpen (name : string)
| EMatch (name : string) (r : Request)
| EMatchAll (r : Request)
| EPut (name : string) (key : RequestInfo) (resp : Response)
| EKeys
| EDelete (name : string)
| EFetch (r : Request)
| EClaim
| ELog (msg : string)
| EError (msg err : string).

(** What [event.respondWith] was given, seen by the page. *)
Inductive Outcome :=
| NotIntercepted                        (* listener returned, no respondWith *)
| Fulfilled (v : option Response)       (* [None]: resolved with undefined *)
| Rejected (err : string)
| Pending.

Definition M (A : Type) : Type := CacheStorage -> A * CacheStorage * list Event.

#[global] Instance M_ret : MRet M := fun A x cs => (x, cs, []).
#[global] Instance M_bind : MBind M := fun A B f m cs =>
  let '(x, cs1, t1) := m cs in
  let '(y, cs2, t2) := f x cs1 in
  (y, cs2, t1 ++ t2).

Definition emit (e : Event) : M unit := fun cs => (tt, cs, [e]).

Definition console_log (msg : string) : M unit := emit (ELog msg).
Definition console_error (msg err : string) : M unit := emit (EError msg err).

Definition caches_open (name : string) : M unit :=
  fun cs => (tt, open_cache name cs, [EOpen name]).

Definition cache_match (name : string) (r : Request) : M (option Response) :=
  fun cs => (lookup_request (cache_of name cs) r, cs, [EMatch name r]).

Definition caches_match (r : Request) : M (option Response) :=
  fun cs => (lookup_all cs r, cs, [EMatchAll r]).

(** [cache.put(info, resp)]: the settled result of the returned promise,
    [None] when the entry was written, [Some err] when the put rejected. *)
Definition cache_put (w : World) (name : string) (i : RequestInfo)
    (resp : Response) : M (option string) :=
  fun cs =>
    match info_key i, put_error w with
    | None, _ => (Some "TypeError", cs, [EPut name i resp])
    | Some _, Some err => (Some err, cs, [EPut name i resp])
    | Some k, None => (None, store_entry name k resp cs, [EPut name i resp])
    end.

Definition caches_keys : M (list string) :=
  fun cs => (cache_names cs, cs, [EKeys]).

Definition caches_delete (name : string) : M unit :=
  fun cs => (tt, delete_cache name cs, [EDelete name]).

Definition do_fetch (w : World) (r : Request) : M FetchResult :=
  fun cs => (fetch w r, cs, [EFetch r]).

Definition clients_claim : M unit := emit EClaim.

(** [Promise.all(names.map(f))] *)
Fixpoint for_each {A} (f : A -> M unit) (l : list A) : M unit :=
  match l with
  | [] => mret tt
  | x :: l' => f x ;; for_each f l'
  end.

(** ** The worker *)

Definition CACHE_NAME : string := "quran-reciter-v12".

Definition cacheWhitelist : list string :=
  [CACHE_NAME; "audio-cache"; "api-cache"].

(** The body of the loop over [cacheNames]. *)
Definition evict (cacheName : string) : M unit :=
  if negb (array_includes cacheWhitelist cacheName) then
    console_log "[SW] Deleting old cache:" ;;
    caches_delete cacheName
  else mret tt.

(** Activate listener: delete every cache whose name is not whitelisted,
    then claim the clients. *)
Definition activate_listener : M unit :=
  console_log "[SW] Activating Service Worker..." ;;
  cacheNames ← caches_keys ;
  for_each evict cacheNames ;;
  clients_claim.

(** The conditions of the fetch listener, in the order it tests them. *)
Definition is_external_api (r : Request) : bool :=
  includes (href (url r)) "api.alquran.cloud".

Definition is_protected_data (r : Request) : bool :=
  includes (pathname (url r)) "surah-data.js".

Definition is_post (r : Request) : bool :=
  String.eqb (method r) "POST".

Definition is_media_path (r : Request) : bool :=
  endsWith (pathname (url r)) ".mp3"
  || endsWith (pathname (url r)) ".json"
  || includes (pathname (url r)) "/cache/".

Definition is_api_path (r : Request) : bool :=
  String.eqb (pathname (url r)) "/history"
  || startsWith (pathname (url r)) "/recitation/".

(** The request the media branch sends to the network: same-origin URL of
    the path, the [range] header removed, method kept. *)
Definition media_request (w : World) (r : Request) : Request :=
  let newHeaders := headers_delete "range" (headers r) in
  let fetchUrl := resolve (pathname (url r)) (self_origin w) in
  {| url := fetchUrl;
     method := method r;
     headers := newHeaders;
     mode := "cors";
     credentials := "same-origin" |}.

(** The key the media branch stores under. *)
Definition cacheUrl (w : World) (r : Request) : string :=
  href (resolve (pathname (url r)) (self_origin w)).

(** 1. Audio and JSON files: cache first, then network. *)
Definition media_cache_first (w : World) (r : Request) : M Outcome :=
  console_log "[SW] Intercepting:" ;;
  caches_open "audio-cache" ;;
  cachedResponse ← cache_match "audio-cache" r ;
  match cachedResponse with
  | Some cached =>
      console_log "[SW] Found in cache:" ;;
      mret (Fulfilled (Some cached))
  | None =>
      console_log "[SW] Not in cache. Fetching full file..." ;;
      res ← do_fetch w (media_request w r) ;
      match res with
      | FetchResolved (Some networkResponse) =>
          console_log "[SW] Network response status:" ;;
          (if status networkResponse =? 200 then
             console_log "[SW] Caching file:" ;;
             put ← cache_put w "audio-cache" (ByUrl (cacheUrl w r))
                     (clone networkResponse) ;
             match put with
             | None => console_log "[SW] Cache put success for:"
             | Some err => console_error "[SW] Cache put failed:" err
             end
           else console_log "[SW] Not caching - status was:") ;;
          mret (Fulfilled (Some networkResponse))
      | FetchResolved None =>
          (* reading [.status] of a falsy value throws; the catch logs
             and rethrows *)
          console_error "[SW] Fetch failed:" "TypeError" ;;
          mret (Rejected "TypeError")
      | FetchRejected err =>
          console_error "[SW] Fetch failed:" err ;;
          mret (Rejected err)
      | FetchPending => mret Pending
      end
  end.

(** 2. API requests: network first, then cache. *)
Definition api_network_first (w : World) (r : Request) : M Outcome :=
  caches_open "api-cache" ;;
  res ← do_fetch w r ;
  match res with
  | FetchResolved (Some networkResponse) =>
      (if status networkResponse =? 200 then
         cache_put w "api-cache" (ByRequest r) (clone networkResponse) ;;
         mret tt
       else mret tt) ;;
      mret (Fulfilled (Some networkResponse))
  | FetchResolved None
  | FetchRejected _ =>
      cached ← cache_match "api-cache" r ;
      mret (Fulfilled cached)
  | FetchPending => mret Pending
  end.

(** 3. Everything else: stale-while-revalidate.  [fetchPromise] runs
    whether or not there is a cached response; its cache update is not
    awaited by the response. *)
Definition stale_while_revalidate (w : World) (r : Request) : M Outcome :=
  cachedResponse ← caches_match r ;
  res ← do_fetch w r ;
  fetchPromise ←
    match res with
    | FetchResolved None => mret (Fulfilled None)
    | FetchResolved (Some networkResponse) =>
        if negb (status networkResponse =? 200)
           || negb (String.eqb (type networkResponse) "basic")
        then mret (Fulfilled (Some networkResponse))
        else
          let responseToCache := clone networkResponse in
          caches_open CACHE_NAME ;;
          cache_put w CACHE_NAME (ByRequest r) responseToCache ;;
          mret (Fulfilled (Some networkResponse))
    | FetchRejected err => mret (Rejected err)
    | FetchPending => mret Pending
    end ;
  mret match cachedResponse with
       | Some cached => Fulfilled (Some cached)
       | None => fetchPromise
       end.

(** Fetch listener. *)
Definition fetch_listener (w : World) (r : Request) : M Outcome :=
  if is_external_api r then mret NotIntercepted
  else if is_protected_data r then mret NotIntercepted
  else if is_post r then mret NotIntercepted
  else if is_media_path r then media_cache_first w r
  else if is_api_path r then api_network_first w r
  else stale_while_revalidate w r.

(** The decision the listener takes, as a value. *)
Inductive Decision := Bypass | Media | Api | Default.

Definition classify (r : Request) : Decision :=
  if is_external_api r then Bypass
  else if is_protected_data r then Bypass
  else if is_post r then Bypass
  else if is_media_path r then Media
  else if is_api_path r then Api
  else Default.

(** Projections of a run. *)
Definition outcome_of {A} (x : A * CacheStorage * list Event) : A := x.1.1.
Definition caches_of {A} (x : A * CacheStorage * list Event) : CacheStorage := x.1.2.
Definition events_of {A} (x : A * CacheStorage * list Event) : list Event := x.2.

Definition is_put (e : Event) : bool :=
  match e with EPut _ _ _ => true | _ => false end.

(** Events that touch the cache storage. *)
Definition is_cache_op (e : Event) : bool :=
  match e with
  | EOpen _ | EMatch _ _ | EMatchAll _ | EPut _ _ _ | EKeys | EDelete _ => true
  | _ => false
  end.

Definition is_read (e : Event) : bool :=
  match e with EMatch _ _ | EMatchAll _ => true | _ => false end.

Definition is_console (e : Event) : bool :=
  match e with ELog _ | EError _ _ => true | _ => false end.

(** The outcome of a promise that follows the fetch. *)
Definition settled (f : FetchResult) : Outcome :=
  match f with
  | FetchResolved v => Fulfilled v
  | FetchRejected err => Rejected err
  | FetchPending => Pending
  end.

(** The cache update of the default branch runs when the early return
    [!networkResponse || status !== 200 || type !== 'basic'] is not taken. *)
Definition revalidates (resp : Response) : bool :=
  (status resp =? 200) && String.eqb (type resp) "basic".

(** ** Sample requests *)

Definition get_request (o p q : string) (h : list (string * string)) : Request :=
  {| url := {| origin := o; pathname := p; search := q; hash := "" |};
     method := "GET"; headers := h; mode := "no-cors";
     credentials := "include" |}.

Definition ok200 (b : string) : Response :=
  {| status := 200; type := "basic"; body := b |}.

Definition online (resp : Response) : World :=
  {| self_origin := "https://quran.example";
     fetch := fun _ => FetchResolved (Some resp);
     put_error := None |}.

Definition offline : World :=
  {| self_origin := "https://quran.example";
     fetch := fun _ => FetchRejected "TypeError: Failed to fetch";
     put_error := None |}.

Definition with_put_error (w : World) (e : option string) : World :=
  {| self_origin := self_origin w; fetch := fetch w; put_error := e |}.

Definition full_disk (resp : Response) : World :=
  {| self_origin := "https://quran.example";
     fetch := fun _ => FetchResolved (Some resp);
     put_error := Some "QuotaExceededError" |}.

Definition stalled : World :=
  {| self_origin := "https://quran.example";
     fetch := fun _ => FetchPending;
     put_error := None |}.

Definition song : Request :=
  get_request "https://quran.example" "/audio/001.mp3" "" [("range", "bytes=0-")].

Definition song_v2 : Request :=
  get_request "https://quran.example" "/audio/001.mp3" "?v=2" [("range", "bytes=0-")].

Definition history : Request := get_request "https://quran.example" "/history" "" [].

Definition stylesheet : Request := get_request "https://quran.example" "/app.css" "" [].

Definition surah_data : Request :=
  get_request "https://quran.example" "/js/surah-data.js" "" [].

Definition delete_recitation : Request :=
  {| url := {| origin := "https://quran.example"; pathname := "/recitation/7";
               search := ""; hash := "" |};
     method := "DELETE"; headers := []; mode := "cors";
     credentials := "same-origin" |}.

Definition post_history : Request :=
  {| url := {| origin := "https://quran.example"; pathname := "/history";
               search := ""; hash := "" |};
     method := "POST"; headers := []; mode := "cors";
     credentials := "same-origin" |}.

Definition partial206 : Response :=
  {| status := 206; type := "basic"; body := "first bytes" |}.

Definition not_found : Response :=
  {| status := 404; type := "basic"; body := "missing" |}.

Definition with_entry (name : string) (r : Request) (resp : Response)
  : CacheStorage :=
  [(name, <[url_key (url r) := resp]> ∅)].

(** ** The install listener *)

Definition ASSETS_TO_CACHE : list string :=
  ["/";
   "https://fonts.googleapis.com/css2?family=Amiri:wght@400;700&family=Scheherazade+New:wght@400;700&family=Noto+Naskh+Arabic:wght@400;700&family=Cairo:wght@400;700&family=Lateef:wght@400;700&family=Rakkas&display=swap"].

(** [new Request(asset)]: a GET request with the constructor's defaults.
    [parse] is the platform's URL parser, relative to the worker's
    location. *)
Definition asset_request (parse : string -> URL) (asset : string) : Request :=
  {| url := parse asset;
     method := "GET";
     headers := [];
     mode := "cors";
     credentials := "same-origin" |}.

(** How an awaited promise ends. *)
Inductive Settled :=
| Done
| Failed (err : string)
| Never.

(** A response [cache.add] accepts: an ok status that is not 206. *)
Definition addable (resp : Response) : bool :=
  (200 <=? status resp) && (status resp <=? 299) && negb (status resp =? 206).

(** [cache.add(asset)]: fetch the asset and put the response; the promise
    rejects when the fetch rejects, when the response is not acceptable,
    or when the put rejects. *)
Definition cache_add (parse : string -> URL) (w : World) (name asset : string)
  : M Settled :=
  res ← do_fetch w (asset_request parse asset) ;
  match res with
  | FetchResolved (Some resp) =>
      if addable resp then
        put ← cache_put w name (ByRequest (asset_request parse asset)) resp ;
        mret match put with
             | None => Done
             | Some err => Failed err
             end
      else mret (Failed "TypeError")
  | FetchResolved None => mret (Failed "TypeError")
  | FetchRejected err => mret (Failed err)
  | FetchPending => mret Never
  end.

(** The loop [for (const asset of ASSETS_TO_CACHE)] with its try/catch
    around [await cache.add(asset)]; [false] when an await never
    returns. *)
Fixpoint cache_assets (parse : string -> URL) (w : World) (assets : list string)
  : M bool :=
  match assets with
  | [] => mret true
  | asset :: rest =>
      added ← cache_add parse w CACHE_NAME asset ;
      match added with
      | Done =>
          console_log ("[SW] Cached: " +:+ asset) ;;
          cache_assets parse w rest
      | Failed err =>
          console_error ("[SW] Failed to cache: " +:+ asset) err ;;
          cache_assets parse w rest
      | Never => mret false
      end
  end.

(** The promise given to [event.waitUntil] by the install listener. *)
Inductive InstallOutcome :=
| SkippedWaiting                        (* resolved with self.skipWaiting() *)
| InstallPending.

Definition install_listener (parse : string -> URL) (w : World)
  : M InstallOutcome :=
  console_log "[SW] Installing Service Worker..." ;;
  caches_open CACHE_NAME ;;
  console_log "[SW] Caching App Shell" ;;
  completed ← cache_assets parse w ASSETS_TO_CACHE ;
  match completed with
  | true =>
      console_log "[SW] Install Complete" ;;
      mret SkippedWaiting
  | false => mret InstallPending
  end.

(** ** Reading a trace *)

(** The requests sent to the network, in order. *)
Fixpoint fetched (t : list Event) : list Request :=
  match t with
  | [] => []
  | EFetch r :: t' => r :: fetched t'
  | _ :: t' => fetched t'
  end.

(** The puts issued, in order. *)
Fixpoint puts (t : list Event) : list (string * RequestInfo * Response) :=
  match t with
  | [] => []
  | EPut name key resp :: t' => (name, key, resp) :: puts t'
  | _ :: t' => puts t'
  end.

(** The errors written with [console.error], in order. *)
Fixpoint reported (t : list Event) : list (string * string) :=
  match t with
  | [] => []
  | EError msg err :: t' => (msg, err) :: reported t'
  | _ :: t' => reported t'
  end.

(** A parser that knows the two assets of the app shell. *)
Definition shell_parse (s : string) : URL :=
  if String.eqb s "/" then
    {| origin := "https://quran.example"; pathname := "/"; search := "";
       hash := "" |}
  else
    {| origin := "https://fonts.googleapis.com"; pathname := "/css2";
       search := "?family=Amiri:wght@400;700&family=Scheherazade+New:wght@400;700&family=Noto+Naskh+Arabic:wght@400;700&family=Cairo:wght@400;700&family=Lateef:wght@400;700&family=Rakkas&display=swap";
       hash := "" |}.

(** A network that serves the worker's own origin and nothing else. *)
Definition own_origin_only (resp : Response) : World :=
  {| self_origin := "https://quran.example";
     fetch := fun r =>
       if String.eqb (origin (url r)) "https://quran.example"
       then FetchResolved (Some resp)
       else FetchRejected "TypeError: Failed to fetch";
     put_error := None |}.

Definition css_with_ref : Request :=
  get_request "https://quran.example" "/app.css" "?ref=api.alquran.cloud" [].

Definition surah_json : Request :=
  get_request "https://quran.example" "/data/surah-data.json" "" [].

Definition recitation_json : Request :=
  get_request "https://quran.example" "/recitation/12.json" "" [].

Definition recitation_item : Request :=
  get_request "https://quran.example" "/recitation/12" "" [].

Definition song_with_headers : Request :=
  get_request "https://quran.example" "/audio/001.mp3" ""
    [("accept", "audio/*"); ("range", "bytes=100-"); ("cache-control", "no-cache")].

Definition put_history : Request :=
  {| url := {| origin := "https://quran.example"; pathname := "/history";
               search := ""; hash := "" |};
     method := "PUT"; headers := []; mode := "cors";
     credentials := "same-origin" |}.

Definition song_other_range : Request :=
  get_request "https://quran.example" "/audio/001.mp3" "" [("range", "bytes=4096-")].

Definition forbidden : Response :=
  {| status := 403; type := "basic"; body := "forbidden" |}.

Definition opaque_ok : Response :=
  {| status := 200; type := "cors"; body := "font" |}.

Definition redirect : Response :=
  {| status := 302; type := "basic"; body := "moved" |}.

Definition root_page : Request := get_request "https://quran.example" "/" "" [].

Definition fonts_url : string :=
  "https://fonts.googleapis.com/css2?family=Amiri:wght@400;700&family=Scheherazade+New:wght@400;700&family=Noto+Naskh+Arabic:wght@400;700&family=Cairo:wght@400;700&family=Lateef:wght@400;700&family=Rakkas&display=swap".

(** ** Facts about the cache storage *)

Section Storage.
Implicit Types (cs : CacheStorage) (name key : string) (resp : Response).

Lemma cache_of_app cs1 cs2 name :
  cache_of name (cs1 ++ cs2) =
  if has_cache name cs1 then cache_of name cs1 else cache_of name cs2.
Proof.
  induction cs1 as [|[n c] cs1 IH]; simpl; [done|].
  destruct (String.eqb n name); simpl; [done|]. apply IH.
Qed.

Lemma cache_of_absent cs name : has_cache name cs = false -> cache_of name cs = ∅.
Proof.
  induction cs as [|[n c] cs IH]; simpl; [done|].
  destruct (String.eqb n name); simpl; [done|]. apply IH.
Qed.

(** Opening a cache changes no cache's contents. *)
Lemma cache_of_open cs name n : cache_of n (open_cache name cs) = cache_of n cs.
Proof.
  unfold open_cache. destruct (has_cache name cs) eqn:Hh; [done|].
  rewrite cache_of_app. destruct (has_cache n cs) eqn:Hn; [done|].
  rewrite (cache_of_absent _ _ Hn). simpl.
  by destruct (String.eqb name n).
Qed.

Lemma has_cache_open cs name : has_cache name (open_cache name cs) = true.
Proof.
  unfold open_cache. destruct (has_cache name cs) eqn:Hh; [done|].
  unfold has_cache. rewrite existsb_app. simpl.
  rewrite String.eqb_refl. by rewrite orb_true_r.
Qed.

Lemma cache_of_store_same cs name key resp :
  has_cache name cs = true ->
  cache_of name (store_entry name key resp cs) = <[key := resp]> (cache_of name cs).
Proof.
  induction cs as [|[n c] cs IH]; simpl; [done|].
  destruct (String.eqb n name) eqn:E; simpl; rewrite E; [done|]. apply IH.
Qed.

Lemma cache_of_store_other cs name key resp n :
  n ≠ name ->
  cache_of n (store_entry name key resp cs) = cache_of n cs.
Proof.
  intros Hne. induction cs as [|[m c] cs IH]; simpl; [done|].
  destruct (String.eqb m name) eqn:E; simpl.
  - apply String.eqb_eq in E. subst m.
    destruct (String.eqb name n) eqn:E'; [|done].
    apply String.eqb_eq in E'. congruence.
  - destruct (String.eqb m n); [done|]. apply IH.
Qed.

Lemma filter_filter {A} (f g : A -> bool) (l : list A) :
  List.filter f (List.filter g l) = List.filter (fun x => g x && f x) l.
Proof.
  induction l as [|x l IH]; simpl; [done|].
  destruct (g x); simpl; [|done]. destruct (f x); by rewrite IH.
Qed.
End Storage.

(** ** Running the worker *)

Ltac run_worker :=
  cbv beta iota zeta delta
    [media_cache_first api_network_first stale_while_revalidate
     mbind mret M_bind M_ret emit console_log console_error
     caches_open cache_match caches_match cache_put do_fetch clone
     outcome_of caches_of events_of fst snd info_key].

Lemma fetch_listener_classify (w : World) (r : Request) :
  fetch_listener w r =
  match classify r with
  | Bypass => mret NotIntercepted
  | Media => media_cache_first w r
  | Api => api_network_first w r
  | Default => stale_while_revalidate w r
  end.
Proof.
  unfold fetch_listener, classify.
  destruct (is_external_api r), (is_protected_data r), (is_post r),
    (is_media_path r), (is_api_path r); reflexivity.
Qed.

Lemma classify_Bypass_iff (r : Request) :
  classify r = Bypass <->
  is_external_api r = true \/ is_protected_data r = true \/ is_post r = true.
Proof.
  unfold classify.
  destruct (is_external_api r), (is_protected_data r), (is_post r),
    (is_media_path r), (is_api_path r); intuition congruence.
Qed.

Lemma classify_Media_iff (r : Request) :
  classify r = Media <->
  is_external_api r = false /\ is_protected_data r = false /\
  is_post r = false /\ is_media_path r = true.
Proof.
  unfold classify.
  destruct (is_external_api r), (is_protected_data r), (is_post r),
    (is_media_path r), (is_api_path r); intuition congruence.
Qed.

Lemma classify_Api_iff (r : Request) :
  classify r = Api <->
  is_external_api r = false /\ is_protected_data r = false /\
  is_post r = false /\ is_media_path r = false /\ is_api_path r = true.
Proof.
  unfold classify.
  destruct (is_external_api r), (is_protected_data r), (is_post r),
    (is_media_path r), (is_api_path r); intuition congruence.
Qed.

Lemma bypass_run (w : World) (r : Request) (cs : CacheStorage) :
  classify r = Bypass -> fetch_listener w r cs = (NotIntercepted, cs, []).
Proof. intros H. rewrite fetch_listener_classify, H. reflexivity. Qed.

(** ** Media: cache first *)

(** C1. A media request makes the worker write to the cache only in the
    [audio-cache] partition and only a network response of status 200;
    on a miss, a network response of any other status is handed to the
    caller, no write is attempted and every partition keeps its
    contents. *)
Theorem media_stores_only_status_200 (w : World) (r : Request) (cs : CacheStorage) :
  classify r = Media ->
  (forall name key resp,
      In (EPut name key resp) (events_of (fetch_listener w r cs)) ->
      name = "audio-cache" /\ status resp = 200 /\
      fetch w (media_request w r) = FetchResolved (Some resp)) /\
  (forall resp,
      lookup_request (cache_of "audio-cache" cs) r = None ->
      fetch w (media_request w r) = FetchResolved (Some resp) ->
      status resp <> 200 ->
      outcome_of (fetch_listener w r cs) = Fulfilled (Some resp) /\
      (forall e, In e (events_of (fetch_listener w r cs)) -> is_put e = false) /\
      (forall name, cache_of name (caches_of (fetch_listener w r cs)) = cache_of name cs)).
Proof.
  intros Hc. rewrite fetch_listener_classify, Hc. split.
  - intros name key resp. run_worker.
    rewrite cache_of_open.
    destruct (lookup_request (cache_of "audio-cache" cs) r) as [cached|].
    { simpl. intuition discriminate. }
    destruct (fetch w (media_request w r)) as [[nr|]|err|] eqn:Hf;
      try (simpl; intuition discriminate).
    destruct (status nr =? 200) eqn:Hs.
    + apply Z.eqb_eq in Hs.
      destruct (put_error w); simpl; intros H;
        repeat (destruct H as [H|H]; try discriminate H; try done);
        by inversion H; subst.
    + simpl. intuition discriminate.
  - intros resp Hmiss Hf Hs. run_worker.
    rewrite cache_of_open, Hmiss, Hf.
    apply Z.eqb_neq in Hs. rewrite Hs. simpl. split; [done|]. split.
    + intros e H. repeat (destruct H as [H|H]; [by subst e|]). done.
    + intros name. apply cache_of_open.
Qed.

Lemma media_stores_only_status_200_witness :
  classify song = Media /\
  outcome_of (fetch_listener (online partial206) song []) = Fulfilled (Some partial206) /\
  (forall e, In e (events_of (fetch_listener (online partial206) song [])) ->
             is_put e = false) /\
  (forall name,
      cache_of name (caches_of (fetch_listener (online partial206) song [])) =
      cache_of name []).
Proof.
  split; [reflexivity|].
  apply (proj2 (media_stores_only_status_200 (online partial206) song [] eq_refl)
           partial206); [reflexivity | reflexivity | discriminate].
Defined.

Lemma append_empty_r (s : string) : s +:+ "" = s.
Proof.
  induction s as [|c s IH]; [reflexivity|].
  change (String c (s +:+ "") = String c s). by rewrite IH.
Qed.

(** The media branch looks the request up under its own URL and stores
    the response under the same-origin URL of the path alone. *)
Lemma cacheUrl_eq (w : World) (r : Request) :
  startsWith (pathname (url r)) "//" = false ->
  cacheUrl w r = self_origin w +:+ pathname (url r).
Proof.
  intros _. unfold cacheUrl, href, resolve. simpl. by rewrite !append_empty_r.
Qed.

(** Where the two keys agree (a GET request for a same-origin URL without
    query, whose path does not begin with two slashes), the stored entry
    is found by any later GET request for that URL, whatever its
    headers. *)
Lemma media_entry_found_by_same_url (w : World) (r r' : Request)
    (cs : CacheStorage) (resp : Response) :
  classify r = Media ->
  lookup_request (cache_of "audio-cache" cs) r = None ->
  fetch w (media_request w r) = FetchResolved (Some resp) ->
  status resp = 200 ->
  put_error w = None ->
  origin (url r) = self_origin w ->
  search (url r) = "" ->
  startsWith (pathname (url r)) "//" = false ->
  method r' = "GET" ->
  url_key (url r') = url_key (url r) ->
  lookup_request (cache_of "audio-cache" (caches_of (fetch_listener w r cs))) r'
  = Some resp.
Proof.
  intros Hc Hmiss Hf Hs Hp Ho Hq Hpath Hm Hu.
  rewrite fetch_listener_classify, Hc. run_worker.
  rewrite cache_of_open, Hmiss, Hf, Hs, Hp. simpl.
  rewrite cache_of_store_same by apply has_cache_open.
  unfold lookup_request, request_key. rewrite Hm. simpl.
  rewrite Hu, (cacheUrl_eq _ _ Hpath). unfold url_key.
  rewrite Ho, Hq, append_empty_r.
  apply lookup_insert_eq.
Qed.

(** C2. The lookup key and the store key differ for a media request whose
    URL has a query: the first handling of [GET /audio/001.mp3?v=2]
    misses, fetches a 200 response and stores it under
    [https://quran.example/audio/001.mp3]; the lookup of the very same
    request in the resulting cache finds nothing, and a second handling
    goes to the network again and never answers from the cache. *)
Theorem media_query_request_misses_stored_entry :
  cache_of "audio-cache"
    (caches_of (fetch_listener (online (ok200 "full file")) song_v2 []))
    !! "https://quran.example/audio/001.mp3" = Some (ok200 "full file") /\
  lookup_request
    (cache_of "audio-cache"
       (caches_of (fetch_listener (online (ok200 "full file")) song_v2 [])))
    song_v2 = None /\
  In (EFetch (media_request (online (ok200 "full file")) song_v2))
    (events_of
       (fetch_listener (online (ok200 "newer file")) song_v2
          (caches_of (fetch_listener (online (ok200 "full file")) song_v2 [])))) /\
  outcome_of
    (fetch_listener (online (ok200 "newer file")) song_v2
       (caches_of (fetch_listener (online (ok200 "full file")) song_v2 [])))
  = Fulfilled (Some (ok200 "newer file")).
Proof.
  repeat split; try (vm_compute; reflexivity).
  vm_compute. tauto.
Qed.

(** ** API: network first *)

(** A fetch that resolved with a response: what the branch does next. *)
Lemma api_run_resolved (w : World) (r : Request) (cs : CacheStorage) (resp : Response) :
  fetch w r = FetchResolved (Some resp) ->
  api_network_first w r cs =
  if status resp =? 200 then
    match request_key r, put_error w with
    | Some k, None =>
        (Fulfilled (Some resp),
         store_entry "api-cache" k resp (open_cache "api-cache" cs),
         [EOpen "api-cache"; EFetch r; EPut "api-cache" (ByRequest r) resp])
    | _, _ =>
        (Fulfilled (Some resp), open_cache "api-cache" cs,
         [EOpen "api-cache"; EFetch r; EPut "api-cache" (ByRequest r) resp])
    end
  else
    (Fulfilled (Some resp), open_cache "api-cache" cs,
     [EOpen "api-cache"; EFetch r]).
Proof.
  intros Hf. run_worker. rewrite Hf.
  destruct (status resp =? 200); [|reflexivity].
  destruct (request_key r), (put_error w); reflexivity.
Qed.

(** A fetch that rejected: the answer is whatever the cache holds. *)
Lemma api_run_rejected (w : World) (r : Request) (cs : CacheStorage) (err : string) :
  fetch w r = FetchRejected err ->
  api_network_first w r cs =
  (Fulfilled (lookup_request (cache_of "api-cache" cs) r),
   open_cache "api-cache" cs,
   [EOpen "api-cache"; EFetch r; EMatch "api-cache" r]).
Proof.
  intros Hf. run_worker. rewrite Hf, cache_of_open. reflexivity.
Qed.

(** C3. When the fetch of an api request resolves with a response, the
    caller gets that response, whatever the cache holds, and the cache is
    not read; when its status is 200 the worker puts a clone into
    [api-cache] with the original request as key, and once the storage
    has taken the write the request finds that response there. *)
Theorem api_success_returns_network_response
    (w : World) (r : Request) (cs : CacheStorage) (resp : Response) :
  classify r = Api ->
  fetch w r = FetchResolved (Some resp) ->
  outcome_of (fetch_listener w r cs) = Fulfilled (Some resp) /\
  (forall e, In e (events_of (fetch_listener w r cs)) -> is_read e = false) /\
  (status resp = 200 ->
     In (EPut "api-cache" (ByRequest r) (clone resp))
        (events_of (fetch_listener w r cs)) /\
     (method r = "GET" -> put_error w = None ->
        lookup_request
          (cache_of "api-cache" (caches_of (fetch_listener w r cs))) r
        = Some resp)).
Proof.
  intros Hc Hf. rewrite fetch_listener_classify, Hc, (api_run_resolved _ _ _ _ Hf).
  unfold clone. split; [|split].
  - destruct (status resp =? 200); [|reflexivity].
    destruct (request_key r), (put_error w); reflexivity.
  - intros e. destruct (status resp =? 200);
      [destruct (request_key r), (put_error w)|]; simpl;
      intros H; repeat (destruct H as [H|H]; [by subst e|]); done.
  - intros Hs. apply Z.eqb_eq in Hs. rewrite Hs. split.
    + destruct (request_key r), (put_error w); simpl; tauto.
    + intros Hm Hp. unfold lookup_request, request_key. rewrite Hm, Hp.
      unfold caches_of. simpl.
      rewrite cache_of_store_same by apply has_cache_open.
      apply lookup_insert_eq.
Qed.

Lemma api_success_returns_network_response_witness :
  outcome_of
    (fetch_listener (online (ok200 "live")) history
       (with_entry "api-cache" history (ok200 "stale")))
  = Fulfilled (Some (ok200 "live")) /\
  lookup_request
    (cache_of "api-cache"
       (caches_of
          (fetch_listener (online (ok200 "live")) history
             (with_entry "api-cache" history (ok200 "stale")))))
    history
  = Some (ok200 "live").
Proof.
  pose proof (api_success_returns_network_response (online (ok200 "live")) history
                (with_entry "api-cache" history (ok200 "stale")) (ok200 "live")
                eq_refl eq_refl) as (Hout & _ & Hput).
  split; [exact Hout|].
  exact (proj2 (Hput eq_refl) eq_refl eq_refl).
Defined.

(** C4. When the fetch of an api request rejects, the caller gets the
    response stored in [api-cache] for that request when there is one;
    when there is none the promise given to [respondWith] still fulfils,
    with no response, and is not a rejection. *)
Theorem api_failure_falls_back_to_cache
    (w : World) (r : Request) (cs : CacheStorage) (err : string) :
  classify r = Api ->
  fetch w r = FetchRejected err ->
  (forall stored,
      lookup_request (cache_of "api-cache" cs) r = Some stored ->
      outcome_of (fetch_listener w r cs) = Fulfilled (Some stored)) /\
  (lookup_request (cache_of "api-cache" cs) r = None ->
      outcome_of (fetch_listener w r cs) = Fulfilled None) /\
  (forall e, outcome_of (fetch_listener w r cs) <> Rejected e).
Proof.
  intros Hc Hf. rewrite fetch_listener_classify, Hc, (api_run_rejected _ _ _ _ Hf).
  unfold outcome_of. simpl. repeat split.
  - by intros stored ->.
  - by intros ->.
  - discriminate.
Qed.

Lemma api_failure_falls_back_to_cache_witness :
  outcome_of
    (fetch_listener offline history (with_entry "api-cache" history (ok200 "stored")))
  = Fulfilled (Some (ok200 "stored")) /\
  outcome_of (fetch_listener offline history []) = Fulfilled None.
Proof.
  split.
  - apply (proj1 (api_failure_falls_back_to_cache offline history
                    (with_entry "api-cache" history (ok200 "stored"))
                    "TypeError: Failed to fetch" eq_refl eq_refl)).
    vm_compute. reflexivity.
  - apply (proj1 (proj2 (api_failure_falls_back_to_cache offline history []
                           "TypeError: Failed to fetch" eq_refl eq_refl))).
    reflexivity.
Defined.

(** C10. When the fetch of an api request resolves with a status other
    than 200, the caller gets that response, no write is attempted, and
    every partition -- so also any entry stored earlier for the request
    -- keeps its contents. *)
Theorem api_non_200_leaves_cache_unchanged
    (w : World) (r : Request) (cs : CacheStorage) (resp : Response) :
  classify r = Api ->
  fetch w r = FetchResolved (Some resp) ->
  status resp <> 200 ->
  outcome_of (fetch_listener w r cs) = Fulfilled (Some resp) /\
  (forall e, In e (events_of (fetch_listener w r cs)) ->
             is_put e = false /\ e <> EDelete "api-cache") /\
  (forall name, cache_of name (caches_of (fetch_listener w r cs)) = cache_of name cs) /\
  lookup_request (cache_of "api-cache" (caches_of (fetch_listener w r cs))) r
  = lookup_request (cache_of "api-cache" cs) r.
Proof.
  intros Hc Hf Hs. apply Z.eqb_neq in Hs.
  rewrite fetch_listener_classify, Hc, (api_run_resolved _ _ _ _ Hf), Hs.
  unfold outcome_of, events_of, caches_of. simpl.
  split; [reflexivity|]. split; [|split].
  - intros e H.
    repeat (destruct H as [H|H]; [by subst e|]). destruct H.
  - intros name. apply cache_of_open.
  - by rewrite cache_of_open.
Qed.

Lemma api_non_200_leaves_cache_unchanged_witness :
  outcome_of
    (fetch_listener (online not_found) history
       (with_entry "api-cache" history (ok200 "good")))
  = Fulfilled (Some not_found) /\
  lookup_request
    (cache_of "api-cache"
       (caches_of
          (fetch_listener (online not_found) history
             (with_entry "api-cache" history (ok200 "good")))))
    history
  = Some (ok200 "good").
Proof.
  pose proof (api_non_200_leaves_cache_unchanged (online not_found) history
                (with_entry "api-cache" history (ok200 "good")) not_found
                eq_refl eq_refl ltac:(discriminate)) as (Hout & _ & _ & Hsame).
  split; [exact Hout|].
  rewrite Hsame. vm_compute. reflexivity.
Defined.

(** ** Default: stale-while-revalidate *)

Lemma revalidates_spec (resp : Response) :
  revalidates resp = true <-> status resp = 200 /\ type resp = "basic".
Proof.
  unfold revalidates. rewrite andb_true_iff, Z.eqb_eq, String.eqb_eq. tauto.
Qed.

Lemma swr_run (w : World) (r : Request) (cs : CacheStorage) :
  stale_while_revalidate w r cs =
  let answer net :=
    match lookup_all cs r with
    | Some cached => Fulfilled (Some cached)
    | None => net
    end in
  match fetch w r with
  | FetchResolved (Some resp) =>
      if revalidates resp then
        match request_key r, put_error w with
        | Some k, None =>
            (answer (Fulfilled (Some resp)),
             store_entry CACHE_NAME k resp (open_cache CACHE_NAME cs),
             [EMatchAll r; EFetch r; EOpen CACHE_NAME;
              EPut CACHE_NAME (ByRequest r) resp])
        | _, _ =>
            (answer (Fulfilled (Some resp)), open_cache CACHE_NAME cs,
             [EMatchAll r; EFetch r; EOpen CACHE_NAME;
              EPut CACHE_NAME (ByRequest r) resp])
        end
      else (answer (Fulfilled (Some resp)), cs, [EMatchAll r; EFetch r])
  | f => (answer (settled f), cs, [EMatchAll r; EFetch r])
  end.
Proof.
  run_worker. unfold revalidates.
  destruct (fetch w r) as [[resp|]|err|]; try reflexivity.
  destruct (status resp =? 200), (String.eqb (type resp) "basic"); simpl;
    try reflexivity.
  destruct (request_key r), (put_error w); reflexivity.
Qed.

(** C5. For a default request: a cached response, when there is one, is
    the answer whatever the fetch does (resolve, reject, or never settle);
    with no cached response the answer is the outcome of the fetch; and
    the worker puts a response into the main partition exactly when the
    fetch resolved with that response, its status is 200 and its type is
    [basic] -- and then, once the storage has taken the write, the request
    finds it there. *)
Theorem default_serves_cache_and_revalidates
    (w : World) (r : Request) (cs : CacheStorage) :
  classify r = Default ->
  (forall cached,
      lookup_all cs r = Some cached ->
      outcome_of (fetch_listener w r cs) = Fulfilled (Some cached)) /\
  (lookup_all cs r = None ->
      outcome_of (fetch_listener w r cs) = settled (fetch w r)) /\
  (forall name key resp,
      In (EPut name key resp) (events_of (fetch_listener w r cs)) <->
      name = CACHE_NAME /\ key = ByRequest r /\
      fetch w r = FetchResolved (Some resp) /\
      status resp = 200 /\ type resp = "basic") /\
  (forall resp,
      fetch w r = FetchResolved (Some resp) ->
      status resp = 200 -> type resp = "basic" ->
      method r = "GET" -> put_error w = None ->
      lookup_request (cache_of CACHE_NAME (caches_of (fetch_listener w r cs))) r
      = Some resp).
Proof.
  intros Hc. rewrite fetch_listener_classify, Hc, swr_run.
  split; [|split; [|split]].
  - intros cached Hhit. cbv zeta. rewrite Hhit.
    destruct (fetch w r) as [[resp|]|err|]; try reflexivity.
    destruct (revalidates resp); [|reflexivity].
    destruct (request_key r), (put_error w); reflexivity.
  - intros Hmiss. cbv zeta. rewrite Hmiss.
    destruct (fetch w r) as [[resp|]|err|]; try reflexivity.
    destruct (revalidates resp); [|reflexivity].
    destruct (request_key r), (put_error w); reflexivity.
  - intros name key resp. cbv zeta. unfold events_of.
    destruct (fetch w r) as [[nr|]|err|] eqn:Hf;
      try (simpl; split; [intuition discriminate | intros (_ & _ & ? & _); discriminate]).
    destruct (revalidates nr) eqn:Hv.
    + apply revalidates_spec in Hv as [Hs Ht].
      assert (In (EPut name key resp)
                [EMatchAll r; EFetch r; EOpen CACHE_NAME;
                 EPut CACHE_NAME (ByRequest r) nr] <->
              name = CACHE_NAME /\ key = ByRequest r /\ nr = resp) as Hin.
      { simpl. split.
        - intros H. repeat (destruct H as [H|H]; try discriminate H); [|done].
          by inversion H.
        - intros (-> & -> & ->). tauto. }
      destruct (request_key r), (put_error w); simpl snd; rewrite Hin;
        (split; [intros (-> & -> & ->); done | intros (-> & -> & H & _)];
         by inversion H).
    + simpl. split; [intuition discriminate|].
      intros (_ & _ & H & Hs & Ht). inversion H; subst nr.
      assert (revalidates resp = true) by by apply revalidates_spec.
      congruence.
  - intros resp Hf Hs Ht Hm Hp. cbv zeta. rewrite Hf.
    assert (revalidates resp = true) as -> by by apply revalidates_spec.
    unfold lookup_request, request_key. rewrite Hm, Hp.
    unfold caches_of. simpl.
    rewrite cache_of_store_same by apply has_cache_open.
    apply lookup_insert_eq.
Qed.

Lemma default_serves_cache_and_revalidates_witness :
  outcome_of
    (fetch_listener stalled stylesheet
       (with_entry CACHE_NAME stylesheet (ok200 "old css")))
  = Fulfilled (Some (ok200 "old css")) /\
  outcome_of (fetch_listener (online (ok200 "new css")) stylesheet [])
  = Fulfilled (Some (ok200 "new css")) /\
  lookup_request
    (cache_of CACHE_NAME
       (caches_of
          (fetch_listener (online (ok200 "new css")) stylesheet
             (with_entry CACHE_NAME stylesheet (ok200 "old css")))))
    stylesheet
  = Some (ok200 "new css").
Proof.
  split; [|split].
  - apply (proj1 (default_serves_cache_and_revalidates stalled stylesheet
                    (with_entry CACHE_NAME stylesheet (ok200 "old css")) eq_refl)).
    vm_compute. reflexivity.
  - apply (proj1 (proj2 (default_serves_cache_and_revalidates
                           (online (ok200 "new css")) stylesheet [] eq_refl))).
    reflexivity.
  - apply (proj2 (proj2 (proj2 (default_serves_cache_and_revalidates
                           (online (ok200 "new css")) stylesheet
                           (with_entry CACHE_NAME stylesheet (ok200 "old css"))
                           eq_refl)))); reflexivity.
Defined.

(** ** Activation *)

Section Bind.
Context {A B : Type}.
Implicit Types (m : M A) (f : A -> M B) (cs : CacheStorage).

Lemma caches_of_bind m f cs :
  caches_of ((m ≫= f) cs) = caches_of (f (outcome_of (m cs)) (caches_of (m cs))).
Proof.
  unfold mbind, M_bind, caches_of, outcome_of.
  destruct (m cs) as [[x cs1] t1]. simpl.
  by destruct (f x cs1) as [[y cs2] t2].
Qed.

Lemma events_of_bind m f cs :
  events_of ((m ≫= f) cs) =
  events_of (m cs) ++ events_of (f (outcome_of (m cs)) (caches_of (m cs))).
Proof.
  unfold mbind, M_bind, caches_of, outcome_of, events_of.
  destruct (m cs) as [[x cs1] t1]. simpl.
  by destruct (f x cs1) as [[y cs2] t2].
Qed.
End Bind.

Lemma array_includes_In (l : list string) (x : string) :
  array_includes l x = true <-> In x l.
Proof.
  unfold array_includes. rewrite existsb_exists. split.
  - intros (y & Hy & E). apply String.eqb_eq in E. by subst.
  - intros H. exists x. split; [done|]. apply String.eqb_refl.
Qed.

Lemma caches_of_evict (name : string) (cs : CacheStorage) :
  caches_of (evict name cs) =
  if array_includes cacheWhitelist name then cs else delete_cache name cs.
Proof. unfold evict. by destruct (array_includes cacheWhitelist name). Qed.

Lemma events_of_evict (name : string) (cs : CacheStorage) :
  events_of (evict name cs) =
  if array_includes cacheWhitelist name then []
  else [ELog "[SW] Deleting old cache:"; EDelete name].
Proof. unfold evict. by destruct (array_includes cacheWhitelist name). Qed.

Lemma array_includes_cons (x : string) (l : list string) (y : string) :
  array_includes (x :: l) y = String.eqb y x || array_includes l y.
Proof. reflexivity. Qed.

(** After the loop over [names], a cache is left when it is whitelisted
    or was not among the names. *)
Lemma caches_of_for_each_evict (names : list string) (cs : CacheStorage) :
  caches_of (for_each evict names cs) =
  List.filter
    (fun p => array_includes cacheWhitelist p.1 || negb (array_includes names p.1))
    cs.
Proof.
  revert cs. induction names as [|x names IH]; intros cs.
  - simpl. unfold caches_of. simpl.
    symmetry. rewrite <- (filter_true cs) at 2.
    apply filter_ext. intros p. by rewrite orb_true_r.
  - cbn [for_each]. rewrite caches_of_bind, IH, caches_of_evict.
    destruct (array_includes cacheWhitelist x) eqn:Hx.
    + apply filter_ext_in. intros p _. rewrite array_includes_cons.
      destruct (String.eqb p.1 x) eqn:E; [|done].
      apply String.eqb_eq in E. rewrite E, Hx. done.
    + unfold delete_cache. rewrite filter_filter.
      apply filter_ext_in. intros p _. rewrite array_includes_cons.
      destruct (String.eqb p.1 x) eqn:E; cbn [negb andb orb]; [|done].
      apply String.eqb_eq in E. by rewrite E, Hx.
Qed.

Lemma events_of_for_each_evict (names : list string) (cs : CacheStorage) (n : string) :
  In (EDelete n) (events_of (for_each evict names cs)) <->
  In n names /\ array_includes cacheWhitelist n = false.
Proof.
  revert cs. induction names as [|x names IH]; intros cs.
  - unfold events_of. simpl. tauto.
  - cbn [for_each]. rewrite events_of_bind, in_app_iff, IH, events_of_evict.
    simpl. destruct (array_includes cacheWhitelist x) eqn:Hx; simpl.
    + split; [tauto|]. intros [[->|H] Hn]; [congruence|tauto].
    + split.
      * intros [[H|[H|[]]]|H]; [discriminate| |tauto].
        inversion H; subst. tauto.
      * intros [[->|H] Hn]; tauto.
Qed.

Lemma activate_run (cs : CacheStorage) :
  caches_of (activate_listener cs) = caches_of (for_each evict (cache_names cs) cs) /\
  forall n, In (EDelete n) (events_of (activate_listener cs)) <->
            In (EDelete n) (events_of (for_each evict (cache_names cs) cs)).
Proof.
  unfold activate_listener.
  unfold mbind, M_bind, console_log, emit, caches_keys, clients_claim,
    caches_of, events_of.
  destruct (for_each evict (cache_names cs) cs) as [[u cs'] t]. simpl.
  split; [done|]. intros n. rewrite in_app_iff. simpl.
  split; [|tauto].
  intros [H|[H|[H|[H|[]]]]]; (discriminate || exact H).
Qed.

(** C6. Activation deletes exactly the caches whose name is not in the
    whitelist [quran-reciter-v12; audio-cache; api-cache]: the storage
    left behind is the old one restricted to whitelisted names (contents
    kept), a name is present afterwards exactly when it was present and is
    whitelisted, and [caches.delete] is called on exactly the names that
    were present and are not whitelisted. *)
Theorem activate_evicts_exactly_unlisted (cs : CacheStorage) :
  caches_of (activate_listener cs) =
    List.filter (fun p => array_includes cacheWhitelist p.1) cs /\
  (forall name,
      In name (cache_names (caches_of (activate_listener cs))) <->
      In name (cache_names cs) /\ In name cacheWhitelist) /\
  (forall name,
      In (EDelete name) (events_of (activate_listener cs)) <->
      In name (cache_names cs) /\ ~ In name cacheWhitelist).
Proof.
  destruct (activate_run cs) as [Hcs Hev].
  assert (caches_of (activate_listener cs) =
          List.filter (fun p => array_includes cacheWhitelist p.1) cs) as Heq.
  { rewrite Hcs, caches_of_for_each_evict. apply filter_ext_in.
    intros p Hp.
    assert (array_includes (cache_names cs) p.1 = true) as ->.
    { apply array_includes_In. unfold cache_names. by apply in_map. }
    by rewrite orb_false_r. }
  split; [exact Heq|]. split.
  - intros name. rewrite Heq. unfold cache_names. rewrite !in_map_iff. split.
    + intros (p & <- & Hp). apply filter_In in Hp as [Hp Hw].
      split; [by exists p | by apply array_includes_In].
    + intros [(p & <- & Hp) Hw]. exists p. split; [done|].
      apply filter_In. split; [done | by apply array_includes_In].
  - intros name. rewrite Hev, events_of_for_each_evict.
    rewrite <- (array_includes_In cacheWhitelist name), not_true_iff_false. done.
Qed.

(** ** Bypass *)

(** A PUT request is a request the cache cannot take (it addresses no
    entry), yet it is not bypassed: handling [PUT /history] opens
    [api-cache], which did not exist, and issues a put keyed by the
    request. *)
Lemma put_request_touches_api_partition :
  method put_history = "PUT" /\
  request_key put_history = None /\
  classify put_history = Api /\
  In (EOpen "api-cache")
     (events_of (fetch_listener (online (ok200 "rows")) put_history [])) /\
  In (EPut "api-cache" (ByRequest put_history) (ok200 "rows"))
     (events_of (fetch_listener (online (ok200 "rows")) put_history [])) /\
  has_cache "api-cache" [] = false /\
  has_cache "api-cache"
    (caches_of (fetch_listener (online (ok200 "rows")) put_history [])) = true.
Proof.
  repeat split; try reflexivity; vm_compute; tauto.
Qed.

(** C7 (amended). A request that meets one of the three bypass tests of
    the fetch listener (the URL contains the external API host, the path
    contains the protected data file name, the method is POST) is not
    intercepted: the listener performs no cache or network operation and
    the cache storage is the one it started with. *)
Theorem bypass_touches_no_partition (w : World) (r : Request) (cs : CacheStorage) :
  includes (href (url r)) "api.alquran.cloud" = true \/
  includes (pathname (url r)) "surah-data.js" = true \/
  method r = "POST" ->
  classify r = Bypass /\
  outcome_of (fetch_listener w r cs) = NotIntercepted /\
  events_of (fetch_listener w r cs) = [] /\
  caches_of (fetch_listener w r cs) = cs.
Proof.
  intros H.
  assert (classify r = Bypass) as Hc.
  { apply classify_Bypass_iff. unfold is_external_api, is_protected_data, is_post.
    destruct H as [H|[H|H]]; [tauto|tauto|].
    right; right. rewrite H. reflexivity. }
  by rewrite (bypass_run _ _ _ Hc).
Qed.

Lemma bypass_touches_no_partition_witness :
  includes (pathname (url surah_data)) "surah-data.js" = true /\
  classify surah_data = Bypass /\
  outcome_of (fetch_listener (online (ok200 "data")) surah_data
                (with_entry CACHE_NAME surah_data (ok200 "stale data")))
  = NotIntercepted /\
  events_of (fetch_listener (online (ok200 "data")) surah_data
               (with_entry CACHE_NAME surah_data (ok200 "stale data"))) = [] /\
  caches_of (fetch_listener (online (ok200 "data")) surah_data
               (with_entry CACHE_NAME surah_data (ok200 "stale data")))
  = with_entry CACHE_NAME surah_data (ok200 "stale data").
Proof.
  split; [reflexivity|].
  apply (bypass_touches_no_partition (online (ok200 "data")) surah_data
           (with_entry CACHE_NAME surah_data (ok200 "stale data"))).
  right; left. reflexivity.
Defined.

(** ** Method rule *)

(** A DELETE request is not bypassed: it is classified [Api], handed to
    the network-first branch, and used as the key of a [cache.put]. *)
Lemma delete_request_is_not_bypassed :
  method delete_recitation = "DELETE" /\
  classify delete_recitation = Api /\
  classify delete_recitation <> Bypass /\
  In (EPut "api-cache" (ByRequest delete_recitation) (ok200 "deleted"))
     (events_of (fetch_listener (online (ok200 "deleted")) delete_recitation [])).
Proof.
  split; [reflexivity|]. split; [reflexivity|]. split; [discriminate|].
  vm_compute. tauto.
Qed.

(** C8 (amended). The method test of the fetch listener is the test for
    POST: every POST request is classified [Bypass], the listener returns
    without [respondWith], and the request is neither looked up nor used
    as the key of a cache entry. *)
Theorem post_request_is_bypassed (w : World) (r : Request) (cs : CacheStorage) :
  method r = "POST" ->
  classify r = Bypass /\
  fetch_listener w r cs = (NotIntercepted, cs, []) /\
  (forall e, In e (events_of (fetch_listener w r cs)) -> is_cache_op e = false).
Proof.
  intros Hm.
  assert (classify r = Bypass) as Hc.
  { apply classify_Bypass_iff. right; right. unfold is_post. by rewrite Hm. }
  rewrite (bypass_run _ _ _ Hc). split; [done|]. split; [done|].
  intros e [].
Qed.

Lemma post_request_is_bypassed_witness :
  method post_history = "POST" /\
  classify post_history = Bypass /\
  fetch_listener (online (ok200 "saved")) post_history []
  = (NotIntercepted, [], []) /\
  (forall e, In e (events_of (fetch_listener (online (ok200 "saved")) post_history []))
             -> is_cache_op e = false).
Proof.
  split; [reflexivity|].
  apply (post_request_is_bypassed (online (ok200 "saved")) post_history []).
  reflexivity.
Defined.

(** ** Storage write failures *)

(** In every branch the answer to the caller does not depend on whether
    the storage takes the write. *)
Lemma put_failure_is_not_fatal (w : World) (r : Request) (cs : CacheStorage)
    (e : option string) :
  outcome_of (fetch_listener (with_put_error w e) r cs)
  = outcome_of (fetch_listener w r cs).
Proof.
  rewrite !fetch_listener_classify. destruct (classify r); [done|..].
  - run_worker. change (fetch (with_put_error w e)) with (fetch w).
    change (media_request (with_put_error w e) r) with (media_request w r).
    change (put_error (with_put_error w e)) with e.
    destruct (lookup_request _ r); [done|].
    destruct (fetch w (media_request w r)) as [[nr|]|err|]; try done.
    destruct (status nr =? 200); [|done].
    by destruct e, (put_error w).
  - run_worker. change (fetch (with_put_error w e)) with (fetch w).
    change (put_error (with_put_error w e)) with e.
    destruct (fetch w r) as [[nr|]|err|]; try done.
    destruct (status nr =? 200); [|done].
    by destruct (request_key r), e, (put_error w).
  - run_worker. change (fetch (with_put_error w e)) with (fetch w).
    change (put_error (with_put_error w e)) with e.
    destruct (lookup_all cs r), (fetch w r) as [[nr|]|err|]; try done;
      destruct (negb (status nr =? 200) || negb (String.eqb (type nr) "basic"));
      try done; by destruct (request_key r), e, (put_error w).
Qed.

(** The media branch reports a rejected put on the console. *)
Lemma media_put_failure_is_logged (w : World) (r : Request) (cs : CacheStorage)
    (resp : Response) (err : string) :
  classify r = Media ->
  lookup_request (cache_of "audio-cache" cs) r = None ->
  fetch w (media_request w r) = FetchResolved (Some resp) ->
  status resp = 200 ->
  put_error w = Some err ->
  In (EError "[SW] Cache put failed:" err) (events_of (fetch_listener w r cs)).
Proof.
  intros Hc Hmiss Hf Hs Hp. rewrite fetch_listener_classify, Hc. run_worker.
  rewrite cache_of_open, Hmiss, Hf, Hs, Hp. simpl. tauto.
Qed.

(** C9. With a storage that rejects every write
    ([QuotaExceededError]) and a network that answers 200:
    the api request [GET /history] and the default request [GET /app.css]
    are answered with the network response, the put is attempted, and the
    worker writes nothing at all to the console, so the rejection is
    reported nowhere; the media request [GET /audio/001.mp3] is answered
    as well and its rejected put is reported by [console.error]. *)
Theorem put_failure_logged_by_media_branch_only :
  (outcome_of (fetch_listener (full_disk (ok200 "rows")) history [])
   = Fulfilled (Some (ok200 "rows")) /\
   In (EPut "api-cache" (ByRequest history) (ok200 "rows"))
      (events_of (fetch_listener (full_disk (ok200 "rows")) history [])) /\
   forall e, In e (events_of (fetch_listener (full_disk (ok200 "rows")) history []))
             -> is_console e = false) /\
  (outcome_of (fetch_listener (full_disk (ok200 "css")) stylesheet [])
   = Fulfilled (Some (ok200 "css")) /\
   In (EPut CACHE_NAME (ByRequest stylesheet) (ok200 "css"))
      (events_of (fetch_listener (full_disk (ok200 "css")) stylesheet [])) /\
   forall e, In e (events_of (fetch_listener (full_disk (ok200 "css")) stylesheet []))
             -> is_console e = false) /\
  (outcome_of (fetch_listener (full_disk (ok200 "mp3")) song [])
   = Fulfilled (Some (ok200 "mp3")) /\
   In (EError "[SW] Cache put failed:" "QuotaExceededError")
      (events_of (fetch_listener (full_disk (ok200 "mp3")) song []))).
Proof.
  split; [|split].
  - split; [reflexivity|]. split; [vm_compute; tauto|].
    intros e H. vm_compute in H.
    repeat (destruct H as [H|H]; [by subst e|]). done.
  - split; [reflexivity|]. split; [vm_compute; tauto|].
    intros e H. vm_compute in H.
    repeat (destruct H as [H|H]; [by subst e|]). done.
  - split; [reflexivity|]. vm_compute. tauto.
Qed.

(** ** The string tests of the classifier *)

Lemma append_cons (c : Ascii.ascii) (s t : string) :
  String c s +:+ t = String c (s +:+ t).
Proof. reflexivity. Qed.

Lemma append_assoc (s t u : string) : (s +:+ t) +:+ u = s +:+ t +:+ u.
Proof.
  induction s as [|c s IH]; [reflexivity|].
  rewrite !append_cons. by rewrite IH.
Qed.

Lemma startsWith_spec (s p : string) :
  startsWith s p = true <-> exists post, s = p +:+ post.
Proof.
  revert s. induction p as [|c p IH]; intros s.
  - split; [exists s; reflexivity | by destruct s].
  - destruct s as [|d s]; simpl.
    + split; [discriminate | intros [post H]; discriminate H].
    + destruct (Ascii.eqb c d) eqn:E.
      * apply Ascii.eqb_eq in E. subst d. rewrite IH. split.
        -- intros [post ->]. by exists post.
        -- intros [post H]. rewrite append_cons in H. inversion H. by exists post.
      * split; [discriminate|]. intros [post H].
        rewrite append_cons in H. inversion H. subst.
        by rewrite Ascii.eqb_refl in E.
Qed.

Lemma includes_spec (s p : string) :
  includes s p = true <-> exists pre post, s = pre +:+ p +:+ post.
Proof.
  induction s as [|c s IH].
  - cbn [includes]. rewrite orb_false_r, startsWith_spec. split.
    + intros [post H]. by exists "", post.
    + intros (pre & post & H). destruct pre; [by exists post|discriminate H].
  - cbn [includes]. rewrite orb_true_iff, IH, startsWith_spec. split.
    + intros [[post H]|(pre & post & H)].
      * by exists "", post.
      * exists (String c pre), post. by rewrite append_cons, H.
    + intros (pre & post & H). destruct pre as [|d pre].
      * left. by exists post.
      * right. rewrite append_cons in H. inversion H. by exists pre, post.
Qed.

Lemma endsWith_spec (s p : string) :
  endsWith s p = true <-> exists pre, s = pre +:+ p.
Proof.
  induction s as [|c s IH].
  - cbn [endsWith]. rewrite orb_false_r, String.eqb_eq. split.
    + intros <-. by exists "".
    + intros [pre H]. destruct pre; [done|discriminate H].
  - cbn [endsWith]. rewrite orb_true_iff, IH, String.eqb_eq. split.
    + intros [<-|[pre H]]; [by exists ""|].
      exists (String c pre). by rewrite append_cons, H.
    + intros [pre H]. destruct pre as [|d pre].
      * left. done.
      * right. rewrite append_cons in H. inversion H. by exists pre.
Qed.

(** X1. The external-API test looks at the whole URL text: a request
    whose [href] contains [api.alquran.cloud] anywhere -- host, path,
    query or fragment, also on the worker's own origin -- is not
    intercepted, and the storage is not touched. *)
Theorem host_text_anywhere_in_url_bypasses
    (w : World) (r : Request) (cs : CacheStorage) (pre post : string) :
  href (url r) = pre +:+ "api.alquran.cloud" +:+ post ->
  classify r = Bypass /\ fetch_listener w r cs = (NotIntercepted, cs, []).
Proof.
  intros H.
  assert (classify r = Bypass) as Hc.
  { apply classify_Bypass_iff. left. unfold is_external_api.
    apply includes_spec. by exists pre, post. }
  split; [exact Hc | by apply bypass_run].
Qed.

Lemma host_text_anywhere_in_url_bypasses_witness :
  classify css_with_ref = Bypass /\
  fetch_listener (online (ok200 "css")) css_with_ref [] = (NotIntercepted, [], []).
Proof.
  apply (host_text_anywhere_in_url_bypasses (online (ok200 "css")) css_with_ref []
           "https://quran.example/app.css?ref=" "").
  reflexivity.
Defined.

(** X2. The protected-data test is a substring test on the path: every
    path that contains [surah-data.js] -- so also [surah-data.json], which
    the media rule would otherwise take -- is not intercepted, whatever
    the method. *)
Theorem protected_data_text_in_path_bypasses
    (w : World) (r : Request) (cs : CacheStorage) (pre post : string) :
  pathname (url r) = pre +:+ "surah-data.js" +:+ post ->
  classify r = Bypass /\ fetch_listener w r cs = (NotIntercepted, cs, []).
Proof.
  intros H.
  assert (classify r = Bypass) as Hc.
  { apply classify_Bypass_iff. right; left. unfold is_protected_data.
    apply includes_spec. by exists pre, post. }
  split; [exact Hc | by apply bypass_run].
Qed.

Lemma protected_data_text_in_path_bypasses_witness :
  is_media_path surah_json = true /\
  classify surah_json = Bypass /\
  fetch_listener (online (ok200 "{}")) surah_json [] = (NotIntercepted, [], []).
Proof.
  split; [reflexivity|].
  apply (protected_data_text_in_path_bypasses (online (ok200 "{}")) surah_json []
           "/data/" "on").
  reflexivity.
Defined.

Lemma includes_false (s p : string) :
  includes s p = false <-> ~ exists pre post, s = pre +:+ p +:+ post.
Proof. by rewrite <- includes_spec, not_true_iff_false. Qed.

Lemma is_media_path_spec (r : Request) :
  is_media_path r = true <->
  (exists pre, pathname (url r) = pre +:+ ".mp3") \/
  (exists pre, pathname (url r) = pre +:+ ".json") \/
  (exists pre post, pathname (url r) = pre +:+ "/cache/" +:+ post).
Proof.
  unfold is_media_path.
  rewrite !orb_true_iff, !endsWith_spec, includes_spec. tauto.
Qed.

Lemma is_api_path_spec (r : Request) :
  is_api_path r = true <->
  pathname (url r) = "/history" \/
  (exists post, pathname (url r) = "/recitation/" +:+ post).
Proof.
  unfold is_api_path.
  by rewrite orb_true_iff, String.eqb_eq, startsWith_spec.
Qed.

Lemma is_post_false (r : Request) : is_post r = false <-> method r <> "POST".
Proof. unfold is_post. apply String.eqb_neq. Qed.

(** X3. A request takes the media branch exactly when no bypass test
    holds (the host text is nowhere in the URL, the protected file name
    is nowhere in the path, the method is not POST) and the path ends in
    [.mp3], ends in [.json], or contains [/cache/]. *)
Theorem media_decision_spec (r : Request) :
  classify r = Media <->
  ~ (exists pre post, href (url r) = pre +:+ "api.alquran.cloud" +:+ post) /\
  ~ (exists pre post, pathname (url r) = pre +:+ "surah-data.js" +:+ post) /\
  method r <> "POST" /\
  ((exists pre, pathname (url r) = pre +:+ ".mp3") \/
   (exists pre, pathname (url r) = pre +:+ ".json") \/
   (exists pre post, pathname (url r) = pre +:+ "/cache/" +:+ post)).
Proof.
  rewrite classify_Media_iff, <- is_media_path_spec, <- is_post_false.
  unfold is_external_api, is_protected_data. by rewrite !includes_false.
Qed.

(** X4. A request takes the api branch exactly when no bypass test
    holds, the path has none of the media shapes, and the path is
    [/history] or begins with [/recitation/]: a path under [/recitation/]
    that ends in [.mp3] or [.json] or contains [/cache/] is a media
    request, not an api request. *)
Theorem api_decision_spec (r : Request) :
  classify r = Api <->
  ~ (exists pre post, href (url r) = pre +:+ "api.alquran.cloud" +:+ post) /\
  ~ (exists pre post, pathname (url r) = pre +:+ "surah-data.js" +:+ post) /\
  method r <> "POST" /\
  ~ ((exists pre, pathname (url r) = pre +:+ ".mp3") \/
     (exists pre, pathname (url r) = pre +:+ ".json") \/
     (exists pre post, pathname (url r) = pre +:+ "/cache/" +:+ post)) /\
  (pathname (url r) = "/history" \/
   exists post, pathname (url r) = "/recitation/" +:+ post).
Proof.
  rewrite classify_Api_iff, <- is_media_path_spec, <- is_api_path_spec,
    <- is_post_false, not_true_iff_false.
  unfold is_external_api, is_protected_data. by rewrite !includes_false.
Qed.

(** ** Media: hits, failures and the request sent to the network *)

Lemma media_run_hit (w : World) (r : Request) (cs : CacheStorage) (cached : Response) :
  lookup_request (cache_of "audio-cache" cs) r = Some cached ->
  media_cache_first w r cs =
  (Fulfilled (Some cached), open_cache "audio-cache" cs,
   [ELog "[SW] Intercepting:"; EOpen "audio-cache"; EMatch "audio-cache" r;
    ELog "[SW] Found in cache:"]).
Proof. intros Hhit. run_worker. by rewrite cache_of_open, Hhit. Qed.

Lemma media_run_miss (w : World) (r : Request) (cs : CacheStorage) :
  lookup_request (cache_of "audio-cache" cs) r = None ->
  media_cache_first w r cs =
  let before :=
    [ELog "[SW] Intercepting:"; EOpen "audio-cache"; EMatch "audio-cache" r;
     ELog "[SW] Not in cache. Fetching full file...";
     EFetch (media_request w r)] in
  let opened := open_cache "audio-cache" cs in
  match fetch w (media_request w r) with
  | FetchResolved (Some resp) =>
      if status resp =? 200 then
        match put_error w with
        | None =>
            (Fulfilled (Some resp),
             store_entry "audio-cache" (cacheUrl w r) resp opened,
             before ++ [ELog "[SW] Network response status:";
                        ELog "[SW] Caching file:";
                        EPut "audio-cache" (ByUrl (cacheUrl w r)) resp;
                        ELog "[SW] Cache put success for:"])
        | Some err =>
            (Fulfilled (Some resp), opened,
             before ++ [ELog "[SW] Network response status:";
                        ELog "[SW] Caching file:";
                        EPut "audio-cache" (ByUrl (cacheUrl w r)) resp;
                        EError "[SW] Cache put failed:" err])
        end
      else
        (Fulfilled (Some resp), opened,
         before ++ [ELog "[SW] Network response status:";
                    ELog "[SW] Not caching - status was:"])
  | FetchResolved None =>
      (Rejected "TypeError", opened,
       before ++ [EError "[SW] Fetch failed:" "TypeError"])
  | FetchRejected err =>
      (Rejected err, opened, before ++ [EError "[SW] Fetch failed:" err])
  | FetchPending => (Pending, opened, before)
  end.
Proof.
  intros Hmiss. run_worker. rewrite cache_of_open, Hmiss.
  destruct (fetch w (media_request w r)) as [[resp|]|err|]; try reflexivity.
  destruct (status resp =? 200); [|reflexivity].
  destruct (put_error w); reflexivity.
Qed.

(** X5. A media request that is found in [audio-cache] is answered from
    the cache whatever the network would do: no request is sent, nothing
    is written (the entry is never refreshed), and every partition keeps
    its contents. *)
Theorem media_hit_skips_network
    (w : World) (r : Request) (cs : CacheStorage) (cached : Response) :
  classify r = Media ->
  lookup_request (cache_of "audio-cache" cs) r = Some cached ->
  outcome_of (fetch_listener w r cs) = Fulfilled (Some cached) /\
  fetched (events_of (fetch_listener w r cs)) = [] /\
  puts (events_of (fetch_listener w r cs)) = [] /\
  (forall name, cache_of name (caches_of (fetch_listener w r cs)) = cache_of name cs).
Proof.
  intros Hc Hhit.
  rewrite fetch_listener_classify, Hc, (media_run_hit _ _ _ _ Hhit).
  repeat split. intros name. apply cache_of_open.
Qed.

Lemma media_hit_skips_network_witness :
  outcome_of (fetch_listener offline song (with_entry "audio-cache" song (ok200 "mp3")))
  = Fulfilled (Some (ok200 "mp3")) /\
  fetched (events_of
             (fetch_listener offline song (with_entry "audio-cache" song (ok200 "mp3"))))
  = [] /\
  puts (events_of
          (fetch_listener offline song (with_entry "audio-cache" song (ok200 "mp3"))))
  = [] /\
  (forall name,
      cache_of name
        (caches_of
           (fetch_listener offline song (with_entry "audio-cache" song (ok200 "mp3"))))
      = cache_of name (with_entry "audio-cache" song (ok200 "mp3"))).
Proof.
  apply (media_hit_skips_network offline song
           (with_entry "audio-cache" song (ok200 "mp3")) (ok200 "mp3") eq_refl).
  vm_compute. reflexivity.
Defined.

(** X6. A media request that misses and whose fetch rejects is answered
    with that rejection: there is no cache fallback, the error is written
    once with [console.error], nothing is stored, and every partition
    keeps its contents. *)
Theorem media_fetch_failure_propagates
    (w : World) (r : Request) (cs : CacheStorage) (err : string) :
  classify r = Media ->
  lookup_request (cache_of "audio-cache" cs) r = None ->
  fetch w (media_request w r) = FetchRejected err ->
  outcome_of (fetch_listener w r cs) = Rejected err /\
  reported (events_of (fetch_listener w r cs)) = [("[SW] Fetch failed:", err)] /\
  puts (events_of (fetch_listener w r cs)) = [] /\
  (forall name, cache_of name (caches_of (fetch_listener w r cs)) = cache_of name cs).
Proof.
  intros Hc Hmiss Hf.
  rewrite fetch_listener_classify, Hc, (media_run_miss _ _ _ Hmiss).
  cbv zeta. rewrite Hf. repeat split. intros name. apply cache_of_open.
Qed.

Lemma media_fetch_failure_propagates_witness :
  outcome_of (fetch_listener offline song []) = Rejected "TypeError: Failed to fetch" /\
  reported (events_of (fetch_listener offline song []))
  = [("[SW] Fetch failed:", "TypeError: Failed to fetch")] /\
  puts (events_of (fetch_listener offline song [])) = [] /\
  (forall name, cache_of name (caches_of (fetch_listener offline song [])) = cache_of name []).
Proof.
  apply (media_fetch_failure_propagates offline song [] "TypeError: Failed to fetch");
    reflexivity.
Defined.

Lemma headers_delete_In (name : string) (h : list (string * string)) (k v : string) :
  In (k, v) (headers_delete name h) <-> In (k, v) h /\ k <> name.
Proof.
  unfold headers_delete. rewrite filter_In. simpl.
  by rewrite negb_true_iff, String.eqb_neq.
Qed.

(** X7. On a media miss for a path that does not begin with two slashes,
    exactly one request goes to the network, and it is the normalised one:
    it carries no [range] header and no header the original request did
    not have, it keeps the method of the original request, and its URL is
    the path on the worker's own origin, without query or fragment -- the
    very URL the response is stored under. *)
Theorem media_miss_sends_normalised_request
    (w : World) (r : Request) (cs : CacheStorage) :
  classify r = Media ->
  lookup_request (cache_of "audio-cache" cs) r = None ->
  startsWith (pathname (url r)) "//" = false ->
  fetched (events_of (fetch_listener w r cs)) = [media_request w r] /\
  (forall v, ~ In ("range", v) (headers (media_request w r))) /\
  (forall k v, In (k, v) (headers (media_request w r)) -> In (k, v) (headers r)) /\
  method (media_request w r) = method r /\
  href (url (media_request w r)) = self_origin w +:+ pathname (url r) /\
  (forall name key resp,
      In (name, key, resp) (puts (events_of (fetch_listener w r cs))) ->
      key = ByUrl (self_origin w +:+ pathname (url r))).
Proof.
  intros Hc Hmiss Hpath.
  rewrite fetch_listener_classify, Hc, (media_run_miss _ _ _ Hmiss). cbv zeta.
  split; [|split; [|split; [|split; [|split]]]].
  - destruct (fetch w (media_request w r)) as [[resp|]|err|]; try reflexivity.
    destruct (status resp =? 200); [|reflexivity].
    destruct (put_error w); reflexivity.
  - intros v H. apply headers_delete_In in H. tauto.
  - intros k v H. cbn [media_request headers] in H.
    apply headers_delete_In in H. tauto.
  - reflexivity.
  - by apply cacheUrl_eq.
  - intros name key resp. rewrite <- (cacheUrl_eq w r Hpath). unfold events_of.
    destruct (fetch w (media_request w r)) as [[nr|]|err|]; try (intros []).
    destruct (status nr =? 200); [|intros []].
    destruct (put_error w); simpl; intros [H|[]]; by inversion H.
Qed.

Lemma media_miss_sends_normalised_request_witness :
  fetched (events_of (fetch_listener (online (ok200 "mp3")) song_with_headers []))
  = [media_request (online (ok200 "mp3")) song_with_headers] /\
  headers (media_request (online (ok200 "mp3")) song_with_headers)
  = [("accept", "audio/*"); ("cache-control", "no-cache")] /\
  href (url (media_request (online (ok200 "mp3")) song_with_headers))
  = "https://quran.example/audio/001.mp3".
Proof.
  pose proof (media_miss_sends_normalised_request (online (ok200 "mp3"))
                song_with_headers [] eq_refl eq_refl eq_refl)
    as (Hf & _ & _ & _ & Hu & _).
  split; [exact Hf|]. split; [reflexivity | exact Hu].
Defined.

(** X8. Cache-first round trip: after a GET media request for a
    same-origin URL without query, whose path does not begin with two
    slashes, missed, fetched a 200 response and the storage took the
    write, every later GET media request for that URL -- whatever its
    headers, so whatever its range -- is answered with the stored response
    and sends nothing to the network, whatever the network would do. *)
Theorem media_second_request_served_from_cache
    (w w' : World) (r r' : Request) (cs : CacheStorage) (resp : Response) :
  classify r = Media ->
  lookup_request (cache_of "audio-cache" cs) r = None ->
  fetch w (media_request w r) = FetchResolved (Some resp) ->
  status resp = 200 ->
  put_error w = None ->
  origin (url r) = self_origin w ->
  search (url r) = "" ->
  startsWith (pathname (url r)) "//" = false ->
  classify r' = Media ->
  method r' = "GET" ->
  url_key (url r') = url_key (url r) ->
  outcome_of (fetch_listener w' r' (caches_of (fetch_listener w r cs)))
  = Fulfilled (Some resp) /\
  fetched (events_of (fetch_listener w' r' (caches_of (fetch_listener w r cs)))) = [].
Proof.
  intros Hc Hmiss Hf Hs Hp Ho Hq Hpath Hc' Hm Hu.
  pose proof (media_entry_found_by_same_url w r r' cs resp
                Hc Hmiss Hf Hs Hp Ho Hq Hpath Hm Hu) as Hhit.
  rewrite (fetch_listener_classify w' r'), Hc', (media_run_hit _ _ _ _ Hhit).
  split; reflexivity.
Qed.

Lemma media_second_request_served_from_cache_witness :
  outcome_of
    (fetch_listener offline song_other_range
       (caches_of (fetch_listener (online (ok200 "mp3")) song [])))
  = Fulfilled (Some (ok200 "mp3")) /\
  fetched
    (events_of
       (fetch_listener offline song_other_range
          (caches_of (fetch_listener (online (ok200 "mp3")) song [])))) = [].
Proof.
  apply (media_second_request_served_from_cache (online (ok200 "mp3")) offline
           song song_other_range [] (ok200 "mp3")); reflexivity.
Defined.

(** ** API: replay and frame *)

Lemma api_run_other (w : World) (r : Request) (cs : CacheStorage) :
  fetch w r = FetchResolved None \/ fetch w r = FetchPending ->
  caches_of (api_network_first w r cs) = open_cache "api-cache" cs.
Proof. intros [Hf|Hf]; run_worker; by rewrite Hf. Qed.

(** What the api branch leaves in the storage. *)
Lemma api_storage (w : World) (r : Request) (cs : CacheStorage) :
  caches_of (api_network_first w r cs) = open_cache "api-cache" cs \/
  exists k resp,
    request_key r = Some k /\
    caches_of (api_network_first w r cs)
    = store_entry "api-cache" k resp (open_cache "api-cache" cs).
Proof.
  destruct (fetch w r) as [[resp|]|err|] eqn:Hf.
  - rewrite (api_run_resolved _ _ _ _ Hf).
    destruct (status resp =? 200); [|by left].
    destruct (request_key r) as [k|]; [|by left].
    destruct (put_error w); [by left|]. right. by exists k, resp.
  - left. apply api_run_other. by left.
  - left. by rewrite (api_run_rejected _ _ _ _ Hf).
  - left. apply api_run_other. by right.
Qed.

(** X9. Network-first round trip: once a GET api request was answered by
    the network with status 200 and the storage took the write, a later
    handling of the same request whose fetch rejects is answered with
    that response. *)
Theorem api_offline_replays_last_success
    (w w' : World) (r : Request) (cs : CacheStorage) (resp : Response) (err : string) :
  classify r = Api ->
  method r = "GET" ->
  fetch w r = FetchResolved (Some resp) ->
  status resp = 200 ->
  put_error w = None ->
  fetch w' r = FetchRejected err ->
  outcome_of (fetch_listener w' r (caches_of (fetch_listener w r cs)))
  = Fulfilled (Some resp).
Proof.
  intros Hc Hm Hf Hs Hp Hf'.
  rewrite !fetch_listener_classify, Hc.
  rewrite (api_run_rejected _ _ _ _ Hf'), (api_run_resolved _ _ _ _ Hf), Hs, Hp.
  unfold lookup_request, request_key. rewrite Hm.
  unfold outcome_of, caches_of. simpl.
  rewrite cache_of_store_same by apply has_cache_open.
  by rewrite lookup_insert_eq.
Qed.

Lemma api_offline_replays_last_success_witness :
  outcome_of
    (fetch_listener offline history
       (caches_of (fetch_listener (online (ok200 "rows")) history
                     (with_entry "api-cache" history (ok200 "old rows")))))
  = Fulfilled (Some (ok200 "rows")).
Proof.
  apply (api_offline_replays_last_success (online (ok200 "rows")) offline history
           (with_entry "api-cache" history (ok200 "old rows")) (ok200 "rows")
           "TypeError: Failed to fetch"); reflexivity.
Defined.

(** X10. The api branch changes at most one entry: whatever the network
    and the storage do, every entry of every partition other than the
    entry of [api-cache] under the request's own URL is left as it was. *)
Theorem api_changes_only_own_entry
    (w : World) (r : Request) (cs : CacheStorage) (name key : string) :
  classify r = Api ->
  name <> "api-cache" \/ key <> url_key (url r) ->
  cache_of name (caches_of (fetch_listener w r cs)) !! key = cache_of name cs !! key.
Proof.
  intros Hc Hother. rewrite fetch_listener_classify, Hc.
  destruct (api_storage w r cs) as [->|(k & resp & Hk & ->)].
  { by rewrite cache_of_open. }
  destruct (decide (name = "api-cache")) as [->|Hn].
  - rewrite cache_of_store_same by apply has_cache_open.
    rewrite cache_of_open. apply lookup_insert_ne.
    unfold request_key in Hk. destruct (String.eqb (method r) "GET"); [|done].
    inversion Hk. subst k. destruct Hother; congruence.
  - by rewrite cache_of_store_other, cache_of_open.
Qed.

Lemma api_changes_only_own_entry_witness :
  cache_of "api-cache"
    (caches_of (fetch_listener (online (ok200 "item")) recitation_item
                  (with_entry "api-cache" history (ok200 "rows"))))
    !! url_key (url history)
  = Some (ok200 "rows").
Proof.
  rewrite (api_changes_only_own_entry (online (ok200 "item")) recitation_item
             (with_entry "api-cache" history (ok200 "rows"))
             "api-cache" (url_key (url history)) eq_refl).
  - vm_compute. reflexivity.
  - right. vm_compute. discriminate.
Defined.

(** X11. An api request whose method is not GET (PUT, DELETE, HEAD, ...)
    never reaches the cache: a 200 answer is returned but the partition
    contents stay as they were, and when its fetch rejects there is never
    a stored response to fall back on. *)
Theorem api_non_get_is_never_cached
    (w : World) (r : Request) (cs : CacheStorage) :
  classify r = Api ->
  method r <> "GET" ->
  (forall name, cache_of name (caches_of (fetch_listener w r cs)) = cache_of name cs) /\
  (forall err, fetch w r = FetchRejected err ->
               outcome_of (fetch_listener w r cs) = Fulfilled None).
Proof.
  intros Hc Hm. rewrite fetch_listener_classify, Hc.
  assert (request_key r = None) as Hk.
  { unfold request_key. apply String.eqb_neq in Hm. by rewrite Hm. }
  split.
  - intros name.
    destruct (api_storage w r cs) as [->|(k & resp & Hk' & _)]; [|congruence].
    apply cache_of_open.
  - intros err Hf. rewrite (api_run_rejected _ _ _ _ Hf).
    unfold lookup_request. by rewrite Hk.
Qed.

Lemma api_non_get_is_never_cached_witness :
  (forall name,
      cache_of name
        (caches_of (fetch_listener (online (ok200 "deleted")) delete_recitation []))
      = cache_of name []) /\
  (forall err, fetch offline delete_recitation = FetchRejected err ->
               outcome_of (fetch_listener offline delete_recitation
                             (with_entry "api-cache" delete_recitation (ok200 "x")))
               = Fulfilled None).
Proof.
  split.
  - apply (api_non_get_is_never_cached (online (ok200 "deleted")) delete_recitation []);
      [reflexivity | discriminate].
  - apply (api_non_get_is_never_cached offline delete_recitation
             (with_entry "api-cache" delete_recitation (ok200 "x")));
      [reflexivity | discriminate].
Defined.

(** ** Default: round trip and frame *)

Lemma lookup_all_app (cs1 cs2 : CacheStorage) (r : Request) :
  lookup_all cs1 r = None -> lookup_all (cs1 ++ cs2) r = lookup_all cs2 r.
Proof.
  induction cs1 as [|[n c] cs1 IH]; simpl; [done|].
  destruct (lookup_request c r); [discriminate | exact IH].
Qed.

Lemma lookup_all_open (cs : CacheStorage) (name : string) (r : Request) :
  lookup_all cs r = None -> lookup_all (open_cache name cs) r = None.
Proof.
  intros Hmiss. unfold open_cache. destruct (has_cache name cs); [done|].
  rewrite (lookup_all_app _ _ _ Hmiss). simpl.
  unfold lookup_request. by destruct (request_key r).
Qed.

Lemma lookup_all_store (cs : CacheStorage) (name k : string) (resp : Response)
    (r : Request) :
  request_key r = Some k ->
  has_cache name cs = true ->
  lookup_all cs r = None ->
  lookup_all (store_entry name k resp cs) r = Some resp.
Proof.
  intros Hk. induction cs as [|[n c] cs IH]; simpl; [discriminate|].
  destruct (lookup_request c r) eqn:Hc; [discriminate|].
  destruct (String.eqb n name); simpl.
  - intros _ _. unfold lookup_request. by rewrite Hk, lookup_insert_eq.
  - intros Hh Hmiss. rewrite Hc. by apply IH.
Qed.

Lemma swr_outcome_hit (w : World) (r : Request) (cs : CacheStorage) (cached : Response) :
  lookup_all cs r = Some cached ->
  outcome_of (stale_while_revalidate w r cs) = Fulfilled (Some cached).
Proof.
  intros Hhit. rewrite swr_run. cbv zeta. rewrite Hhit.
  destruct (fetch w r) as [[resp|]|err|]; try reflexivity.
  destruct (revalidates resp); [|reflexivity].
  destruct (request_key r), (put_error w); reflexivity.
Qed.

(** X12. Stale-while-revalidate round trip: after a GET default request
    that no partition could answer was fetched with status 200 and type
    [basic] and the storage took the write, the next handling of that
    request is answered with the stored response, whatever the network
    does then. *)
Theorem default_revalidated_response_served_next
    (w w' : World) (r : Request) (cs : CacheStorage) (resp : Response) :
  classify r = Default ->
  method r = "GET" ->
  lookup_all cs r = None ->
  fetch w r = FetchResolved (Some resp) ->
  status resp = 200 ->
  type resp = "basic" ->
  put_error w = None ->
  outcome_of (fetch_listener w' r (caches_of (fetch_listener w r cs)))
  = Fulfilled (Some resp).
Proof.
  intros Hc Hm Hmiss Hf Hs Ht Hp.
  rewrite !fetch_listener_classify, Hc. apply swr_outcome_hit.
  rewrite swr_run. cbv zeta. rewrite Hf.
  assert (revalidates resp = true) as -> by by apply revalidates_spec.
  assert (request_key r = Some (url_key (url r))) as Hk.
  { unfold request_key. by rewrite Hm. }
  rewrite Hk, Hp. unfold caches_of. simpl.
  apply lookup_all_store; [exact Hk | apply has_cache_open |].
  by apply lookup_all_open.
Qed.

Lemma default_revalidated_response_served_next_witness :
  outcome_of
    (fetch_listener offline stylesheet
       (caches_of (fetch_listener (online (ok200 "css")) stylesheet [])))
  = Fulfilled (Some (ok200 "css")).
Proof.
  apply (default_revalidated_response_served_next (online (ok200 "css")) offline
           stylesheet [] (ok200 "css")); reflexivity.
Defined.

(** X13. Unless its fetch resolves with a response of status 200 and type
    [basic], the default branch leaves the storage exactly as it found it:
    no partition is created and no write is attempted -- so an opaque or
    cross-origin answer, an error status or a failed fetch is never
    cached. *)
Theorem default_untouched_unless_basic_200
    (w : World) (r : Request) (cs : CacheStorage) :
  classify r = Default ->
  (forall resp, fetch w r = FetchResolved (Some resp) ->
                status resp <> 200 \/ type resp <> "basic") ->
  caches_of (fetch_listener w r cs) = cs /\
  puts (events_of (fetch_listener w r cs)) = [].
Proof.
  intros Hc Hno. rewrite fetch_listener_classify, Hc, swr_run. cbv zeta.
  destruct (fetch w r) as [[resp|]|err|] eqn:Hf; try (split; reflexivity).
  destruct (revalidates resp) eqn:Hv; [|split; reflexivity].
  apply revalidates_spec in Hv. destruct (Hno resp eq_refl); tauto.
Qed.

Lemma default_untouched_unless_basic_200_witness :
  caches_of (fetch_listener (online opaque_ok) stylesheet []) = [] /\
  puts (events_of (fetch_listener (online opaque_ok) stylesheet [])) = [].
Proof.
  apply (default_untouched_unless_basic_200 (online opaque_ok) stylesheet []);
    [reflexivity|].
  intros resp H. inversion H. right. discriminate.
Defined.

(** ** The fetch listener as a whole *)

Lemma media_storage (w : World) (r : Request) (cs : CacheStorage) :
  caches_of (media_cache_first w r cs) = open_cache "audio-cache" cs \/
  exists resp,
    caches_of (media_cache_first w r cs)
    = store_entry "audio-cache" (cacheUrl w r) resp (open_cache "audio-cache" cs).
Proof.
  destruct (lookup_request (cache_of "audio-cache" cs) r) as [cached|] eqn:Hl.
  { left. by rewrite (media_run_hit _ _ _ _ Hl). }
  rewrite (media_run_miss _ _ _ Hl). cbv zeta.
  destruct (fetch w (media_request w r)) as [[resp|]|err|]; try by left.
  destruct (status resp =? 200); [|by left].
  destruct (put_error w); [by left|]. right. by exists resp.
Qed.

Lemma swr_storage (w : World) (r : Request) (cs : CacheStorage) :
  caches_of (stale_while_revalidate w r cs) = cs \/
  caches_of (stale_while_revalidate w r cs) = open_cache CACHE_NAME cs \/
  exists k resp,
    caches_of (stale_while_revalidate w r cs)
    = store_entry CACHE_NAME k resp (open_cache CACHE_NAME cs).
Proof.
  rewrite swr_run. cbv zeta.
  destruct (fetch w r) as [[resp|]|err|]; try by left.
  destruct (revalidates resp); [|by left].
  destruct (request_key r) as [k|]; [|by right; left].
  destruct (put_error w); [by right; left|]. right; right. by exists k, resp.
Qed.

(** What any handling of a request leaves in the storage: nothing new, a
    freshly opened whitelisted partition, or one entry written to it. *)
Lemma fetch_listener_storage (w : World) (r : Request) (cs : CacheStorage) :
  caches_of (fetch_listener w r cs) = cs \/
  exists name,
    In name cacheWhitelist /\
    (caches_of (fetch_listener w r cs) = open_cache name cs \/
     exists k resp,
       caches_of (fetch_listener w r cs)
       = store_entry name k resp (open_cache name cs)).
Proof.
  rewrite fetch_listener_classify. destruct (classify r).
  - by left.
  - right. exists "audio-cache". split; [simpl; tauto|].
    destruct (media_storage w r cs) as [H|[resp H]]; [by left|].
    right. by exists (cacheUrl w r), resp.
  - right. exists "api-cache". split; [simpl; tauto|].
    destruct (api_storage w r cs) as [H|(k & resp & _ & H)]; [by left|].
    right. by exists k, resp.
  - destruct (swr_storage w r cs) as [H|[H|(k & resp & H)]]; [by left|..];
      right; exists CACHE_NAME; (split; [simpl; tauto|]); [by left|].
    right. by exists k, resp.
Qed.

Lemma cache_names_open (name : string) (cs : CacheStorage) :
  exists extra, cache_names (open_cache name cs) = cache_names cs ++ extra /\
                forall n, In n extra -> n = name.
Proof.
  unfold open_cache. destruct (has_cache name cs).
  - exists []. split; [by rewrite app_nil_r | intros n []].
  - exists [name]. split.
    + unfold cache_names. by rewrite map_app.
    + intros n [<-|[]]. done.
Qed.

Lemma cache_names_store (name k : string) (resp : Response) (cs : CacheStorage) :
  cache_names (store_entry name k resp cs) = cache_names cs.
Proof.
  induction cs as [|[n c] cs IH]; simpl; [done|].
  destruct (String.eqb n name); simpl; [done | by rewrite IH].
Qed.

(** X14. Handling a request never removes anything: every entry that was
    in some partition is still there afterwards (possibly replaced by a
    newer response), the partitions that existed still exist in the same
    order, and a partition that was added is one of the whitelisted
    three, so a later activation keeps it. *)
Theorem fetch_listener_only_adds
    (w : World) (r : Request) (cs : CacheStorage) :
  (forall name key,
      is_Some (cache_of name cs !! key) ->
      is_Some (cache_of name (caches_of (fetch_listener w r cs)) !! key)) /\
  (exists extra,
      cache_names (caches_of (fetch_listener w r cs)) = cache_names cs ++ extra /\
      forall n, In n extra -> In n cacheWhitelist).
Proof.
  destruct (fetch_listener_storage w r cs)
    as [->|(n & Hn & [->|(k & resp & ->)])].
  - split; [done|]. exists []. split; [by rewrite app_nil_r | intros ? []].
  - split.
    + intros name key. by rewrite cache_of_open.
    + destruct (cache_names_open n cs) as (extra & -> & He).
      exists extra. split; [done|]. intros m Hm. by rewrite (He m Hm).
  - split.
    + intros name key Hsome. destruct (decide (name = n)) as [->|Hne].
      * rewrite cache_of_store_same by apply has_cache_open.
        rewrite cache_of_open, lookup_insert. by case_decide.
      * by rewrite cache_of_store_other, cache_of_open.
    + rewrite cache_names_store.
      destruct (cache_names_open n cs) as (extra & -> & He).
      exists extra. split; [done|]. intros m Hm. by rewrite (He m Hm).
Qed.

Lemma api_run_falsy (w : World) (r : Request) (cs : CacheStorage) :
  fetch w r = FetchResolved None ->
  api_network_first w r cs =
  (Fulfilled (lookup_request (cache_of "api-cache" cs) r),
   open_cache "api-cache" cs,
   [EOpen "api-cache"; EFetch r; EMatch "api-cache" r]).
Proof. intros Hf. run_worker. by rewrite Hf, cache_of_open. Qed.

Lemma api_run_pending (w : World) (r : Request) (cs : CacheStorage) :
  fetch w r = FetchPending ->
  api_network_first w r cs =
  (Pending, open_cache "api-cache" cs, [EOpen "api-cache"; EFetch r]).
Proof. intros Hf. run_worker. by rewrite Hf. Qed.

Ltac each_path :=
  repeat match goal with
         | |- context [match ?x with _ => _ end] => destruct x eqn:?
         end.

Ltac one_put :=
  simpl; (split; [lia|]); (split; [lia|]);
  let H := fresh "H" in
  intros ? ? ? H; try (by destruct H);
  destruct H as [H|[]]; inversion H; subst;
  (split; [first [by apply Z.eqb_eq | by apply revalidates_spec]|]);
  (split; [simpl; tauto|]);
  by eexists.

(** X15. Handling one request sends at most one request to the network and
    attempts at most one write; whatever the branch, a response that is
    written has status 200, is the answer to the one request sent in this
    handling, and goes to one of the three whitelisted partitions. *)
Theorem fetch_listener_one_fetch_one_put
    (w : World) (r : Request) (cs : CacheStorage) :
  (length (fetched (events_of (fetch_listener w r cs))) <= 1)%nat /\
  (length (puts (events_of (fetch_listener w r cs))) <= 1)%nat /\
  (forall name key resp,
      In (name, key, resp) (puts (events_of (fetch_listener w r cs))) ->
      status resp = 200 /\
      In name cacheWhitelist /\
      exists q, fetched (events_of (fetch_listener w r cs)) = [q] /\
                fetch w q = FetchResolved (Some resp)).
Proof.
  rewrite fetch_listener_classify. destruct (classify r).
  - run_worker. simpl. split; [lia|]. split; [lia|]. intros ? ? ? [].
  - destruct (lookup_request (cache_of "audio-cache" cs) r) as [cached|] eqn:Hl.
    + rewrite (media_run_hit _ _ _ _ Hl). one_put.
    + rewrite (media_run_miss _ _ _ Hl). cbv zeta. unfold events_of.
      each_path; one_put.
  - destruct (fetch w r) as [[resp|]|err|] eqn:Hf.
    + rewrite (api_run_resolved _ _ _ _ Hf). unfold events_of.
      each_path; one_put.
    + rewrite (api_run_falsy _ _ _ Hf). one_put.
    + rewrite (api_run_rejected _ _ _ _ Hf). one_put.
    + rewrite (api_run_pending _ _ _ Hf). one_put.
  - rewrite swr_run. cbv zeta. unfold events_of.
    each_path; one_put.
Qed.

(** ** Activation, again *)

Lemma activate_storage (cs : CacheStorage) :
  caches_of (activate_listener cs) =
  List.filter (fun p => array_includes cacheWhitelist p.1) cs.
Proof.
  rewrite (proj1 (activate_run cs)), caches_of_for_each_evict.
  apply filter_ext_in. intros p Hp.
  assert (array_includes (cache_names cs) p.1 = true) as ->.
  { apply array_includes_In. unfold cache_names. by apply in_map. }
  by rewrite orb_false_r.
Qed.

Lemma cache_of_filter (f : string -> bool) (name : string) (cs : CacheStorage) :
  cache_of name (List.filter (fun p => f p.1) cs) =
  if f name then cache_of name cs else ∅.
Proof.
  induction cs as [|[n c] cs IH]; simpl.
  - by destruct (f name).
  - destruct (String.eqb n name) eqn:E.
    + apply String.eqb_eq in E. subst n.
      destruct (f name) eqn:Hf; simpl.
      * by rewrite String.eqb_refl.
      * exact IH.
    + destruct (f n); simpl; [by rewrite E|]; exact IH.
Qed.

(** X16. Activation leaves the three whitelisted partitions exactly as
    they were, entry for entry, and after it every other name is gone: an
    old shell partition such as [quran-reciter-v11] holds nothing any
    more, while [audio-cache] and [api-cache] live on across versions. *)
Theorem activate_keeps_whitelisted_contents (cs : CacheStorage) (name : string) :
  (In name cacheWhitelist ->
     cache_of name (caches_of (activate_listener cs)) = cache_of name cs) /\
  (~ In name cacheWhitelist ->
     cache_of name (caches_of (activate_listener cs)) = ∅ /\
     has_cache name (caches_of (activate_listener cs)) = false).
Proof.
  rewrite activate_storage, cache_of_filter. split.
  - intros H. apply array_includes_In in H. by rewrite H.
  - intros H. rewrite <- array_includes_In, not_true_iff_false in H.
    rewrite H. split; [done|].
    unfold has_cache. apply not_true_iff_false. rewrite existsb_exists.
    intros (p & Hp & E). apply filter_In in Hp as [_ Hw].
    apply String.eqb_eq in E. congruence.
Qed.

(** X17. Activation is idempotent: a second activation finds nothing to
    delete and leaves the storage as the first one left it. *)
Theorem activate_twice_is_activate_once (cs : CacheStorage) :
  caches_of (activate_listener (caches_of (activate_listener cs)))
  = caches_of (activate_listener cs) /\
  (forall name,
      ~ In (EDelete name)
          (events_of (activate_listener (caches_of (activate_listener cs))))).
Proof.
  split.
  - rewrite !activate_storage, filter_filter.
    apply filter_ext. intros p. by rewrite andb_diag.
  - intros name H.
    apply (proj2 (activate_run _)) in H.
    apply events_of_for_each_evict in H as [Hin Hw].
    rewrite activate_storage in Hin. unfold cache_names in Hin.
    apply in_map_iff in Hin as (p & <- & Hp).
    apply filter_In in Hp as [_ Hp]. congruence.
Qed.

(** ** Installation *)

Section Install.
Variables (parse : string -> URL) (w : World).

Lemma cache_add_run (name asset : string) (cs : CacheStorage) :
  cache_add parse w name asset cs =
  let req := asset_request parse asset in
  match fetch w req with
  | FetchResolved (Some resp) =>
      if addable resp then
        match put_error w with
        | None =>
            (Done, store_entry name (url_key (parse asset)) resp cs,
             [EFetch req; EPut name (ByRequest req) resp])
        | Some err =>
            (Failed err, cs, [EFetch req; EPut name (ByRequest req) resp])
        end
      else (Failed "TypeError", cs, [EFetch req])
  | FetchResolved None => (Failed "TypeError", cs, [EFetch req])
  | FetchRejected err => (Failed err, cs, [EFetch req])
  | FetchPending => (Never, cs, [EFetch req])
  end.
Proof.
  unfold cache_add. run_worker.
  destruct (fetch w (asset_request parse asset)) as [[resp|]|err|]; try reflexivity.
  destruct (addable resp); [|reflexivity].
  unfold request_key. simpl. destruct (put_error w); reflexivity.
Qed.

(** One turn of the loop. *)
Lemma cache_assets_cons (asset : string) (rest : list string) (cs : CacheStorage) :
  cache_assets parse w (asset :: rest) cs =
  let '(added, cs1, t1) := cache_add parse w CACHE_NAME asset cs in
  match added with
  | Done =>
      let '(b, cs2, t2) := cache_assets parse w rest cs1 in
      (b, cs2, t1 ++ ELog ("[SW] Cached: " +:+ asset) :: t2)
  | Failed err =>
      let '(b, cs2, t2) := cache_assets parse w rest cs1 in
      (b, cs2, t1 ++ EError ("[SW] Failed to cache: " +:+ asset) err :: t2)
  | Never => (false, cs1, t1 ++ [])
  end.
Proof.
  cbn [cache_assets]. unfold mbind at 1, M_bind at 1.
  destruct (cache_add parse w CACHE_NAME asset cs) as [[added cs1] t1].
  destruct added as [|err|]; [| |reflexivity]; run_worker;
    by destruct (cache_assets parse w rest cs1) as [[b cs2] t2].
Qed.

Lemma install_run (cs : CacheStorage) :
  install_listener parse w cs =
  let '(b, cs2, t2) :=
    cache_assets parse w ASSETS_TO_CACHE (open_cache CACHE_NAME cs) in
  (if b then SkippedWaiting else InstallPending, cs2,
   [ELog "[SW] Installing Service Worker..."; EOpen CACHE_NAME;
    ELog "[SW] Caching App Shell"]
   ++ t2 ++ (if b then [ELog "[SW] Install Complete"] else [])).
Proof.
  unfold install_listener. run_worker.
  destruct (cache_assets parse w ASSETS_TO_CACHE (open_cache CACHE_NAME cs))
    as [[[|] cs2] t2]; simpl; by rewrite ?app_nil_r.
Qed.

Lemma fetched_app (t1 t2 : list Event) : fetched (t1 ++ t2) = fetched t1 ++ fetched t2.
Proof.
  induction t1 as [|e t1 IH]; [done|]. destruct e; simpl; by rewrite ?IH.
Qed.

Lemma puts_app (t1 t2 : list Event) : puts (t1 ++ t2) = puts t1 ++ puts t2.
Proof.
  induction t1 as [|e t1 IH]; [done|]. destruct e; simpl; by rewrite ?IH.
Qed.

Lemma reported_app (t1 t2 : list Event) :
  reported (t1 ++ t2) = reported t1 ++ reported t2.
Proof.
  induction t1 as [|e t1 IH]; [done|]. destruct e; simpl; by rewrite ?IH.
Qed.

(** Case analysis of one turn of the loop: the six ways [cache.add] can
    end, with the rest of the loop named in each. *)
Ltac loop_turn IH :=
  rewrite cache_assets_cons, cache_add_run; cbv zeta;
  match goal with
  | |- context [fetch ?w ?q] =>
      let Hf := fresh "Hf" in
      let Ha := fresh "Ha" in
      let Hp := fresh "Hp" in
      destruct (fetch w q) as [[?resp|]|?err|] eqn:Hf;
      [match goal with
       | |- context [if addable ?x then _ else _] =>
           destruct (addable x) eqn:Ha; [destruct (put_error w) eqn:Hp|]
       end|..]
  end;
  try match goal with
      | |- context [cache_assets ?p ?w ?rest ?c] =>
          specialize (IH c);
          destruct (cache_assets p w rest c) as [[?b ?cs2] ?t2]
      end;
  unfold outcome_of, caches_of, events_of in *; cbn [fst snd] in *.

Lemma cache_assets_completes (assets : list string) (cs : CacheStorage) :
  outcome_of (cache_assets parse w assets cs) = true <->
  forall asset, In asset assets -> fetch w (asset_request parse asset) <> FetchPending.
Proof.
  revert cs. induction assets as [|a rest IH]; intros cs.
  - split; [intros _ ? [] | reflexivity].
  - loop_turn IH;
      try (rewrite IH; split;
           [intros H x [<-|Hx]; [congruence | by apply H]
           |intros H x Hx; apply H; by right]).
    split; [discriminate|]. intros H. destruct (H a); [by left | exact Hf].
Qed.

Lemma cache_assets_fetched (assets : list string) (cs : CacheStorage) :
  (forall asset, In asset assets ->
                 fetch w (asset_request parse asset) <> FetchPending) ->
  fetched (events_of (cache_assets parse w assets cs))
  = map (asset_request parse) assets.
Proof.
  revert cs. induction assets as [|a rest IH]; intros cs Hno; [reflexivity|].
  assert (forall asset, In asset rest ->
            fetch w (asset_request parse asset) <> FetchPending) as Hrest.
  { intros x Hx. apply Hno. by right. }
  loop_turn IH; try (simpl; by rewrite (IH Hrest)).
  destruct (Hno a); [by left | exact Hf].
Qed.

Lemma cache_assets_reported (assets : list string) (cs : CacheStorage)
    (asset err : string) :
  (forall a, In a assets -> fetch w (asset_request parse a) <> FetchPending) ->
  In asset assets ->
  fetch w (asset_request parse asset) = FetchRejected err \/
  (err = "TypeError" /\
   exists resp, fetch w (asset_request parse asset) = FetchResolved (Some resp) /\
                addable resp = false) ->
  In ("[SW] Failed to cache: " +:+ asset, err)
     (reported (events_of (cache_assets parse w assets cs))).
Proof.
  revert cs. induction assets as [|a rest IH]; intros cs Hno Hin Hfail; [destruct Hin|].
  assert (forall x, In x rest ->
            fetch w (asset_request parse x) <> FetchPending) as Hrest.
  { intros x Hx. apply Hno. by right. }
  destruct Hin as [->|Hin].
  - loop_turn IH; simpl;
      destruct Hfail as [Hr|(-> & resp' & Hr & Ha')]; try congruence;
      try (left; congruence).
  - loop_turn IH; simpl; try (right; by apply IH); try by apply IH.
    destruct (Hno a); [by left | exact Hf].
Qed.

Lemma has_cache_store (name n k : string) (resp : Response) (cs : CacheStorage) :
  has_cache name (store_entry n k resp cs) = has_cache name cs.
Proof.
  unfold has_cache. induction cs as [|[m c] cs IH]; simpl; [done|].
  destruct (String.eqb m n); simpl; [done | by rewrite IH].
Qed.

Lemma cache_assets_puts (assets : list string) (cs : CacheStorage)
    (name : string) (key : RequestInfo) (resp : Response) :
  In (name, key, resp) (puts (events_of (cache_assets parse w assets cs))) ->
  name = CACHE_NAME /\ addable resp = true /\
  exists asset, In asset assets /\ key = ByRequest (asset_request parse asset) /\
                fetch w (asset_request parse asset) = FetchResolved (Some resp).
Proof.
  revert cs. induction assets as [|a rest IH]; intros cs; [intros []|].
  loop_turn IH; simpl; intros H;
    repeat match goal with
           | H : _ \/ _ |- _ => destruct H as [H|H]
           | H : (_, _, _) = (_, _, _) |- _ => inversion H; subst; clear H
           | H : False |- _ => destruct H
           end;
    try (split; [done|]; split; [done|]; exists a; by repeat split; try left);
    try (destruct (IH H) as (? & ? & x & ? & ? & ?);
         split; [done|]; split; [done|]; exists x; by repeat split; try right).
Qed.

Lemma cache_assets_frame (assets : list string) (cs : CacheStorage) (name : string) :
  name <> CACHE_NAME ->
  cache_of name (caches_of (cache_assets parse w assets cs)) = cache_of name cs.
Proof.
  intros Hne. revert cs. induction assets as [|a rest IH]; intros cs; [reflexivity|].
  loop_turn IH; simpl; try done.
  by rewrite IH, cache_of_store_other.
Qed.

(** An entry of the shell partition survives the loop when every asset
    filed under its key would store the same response. *)
Lemma cache_assets_keeps (assets : list string) (cs : CacheStorage)
    (k : string) (resp : Response) :
  has_cache CACHE_NAME cs = true ->
  cache_of CACHE_NAME cs !! k = Some resp ->
  (forall b, In b assets -> url_key (parse b) = k ->
             fetch w (asset_request parse b) = FetchResolved (Some resp)) ->
  cache_of CACHE_NAME (caches_of (cache_assets parse w assets cs)) !! k = Some resp.
Proof.
  revert cs. induction assets as [|a rest IH]; intros cs Hh Hk Hsame; [exact Hk|].
  assert (forall b, In b rest -> url_key (parse b) = k ->
            fetch w (asset_request parse b) = FetchResolved (Some resp)) as Hrest.
  { intros b Hb. apply Hsame. by right. }
  loop_turn IH; simpl; try by apply IH. 2: exact Hk.
  apply IH; [by rewrite has_cache_store | | exact Hrest].
  rewrite (cache_of_store_same _ _ _ _ Hh).
  destruct (decide (url_key (parse a) = k)) as [E|E].
  - rewrite (Hsame a (or_introl eq_refl) E) in Hf. inversion Hf. subst.
    apply lookup_insert_eq.
  - by rewrite lookup_insert_ne.
Qed.

Lemma cache_assets_stores (assets : list string) (cs : CacheStorage)
    (asset : string) (resp : Response) :
  has_cache CACHE_NAME cs = true ->
  put_error w = None ->
  (forall a, In a assets -> fetch w (asset_request parse a) <> FetchPending) ->
  In asset assets ->
  fetch w (asset_request parse asset) = FetchResolved (Some resp) ->
  addable resp = true ->
  (forall b, In b assets -> url_key (parse b) = url_key (parse asset) ->
             parse b = parse asset) ->
  cache_of CACHE_NAME (caches_of (cache_assets parse w assets cs))
    !! url_key (parse asset) = Some resp.
Proof.
  intros Hh Hput. revert cs Hh.
  induction assets as [|a rest IH]; intros cs Hh Hno Hin Hok Hadd Hinj; [destruct Hin|].
  assert (forall x, In x rest ->
            fetch w (asset_request parse x) <> FetchPending) as Hrest.
  { intros x Hx. apply Hno. by right. }
  assert (forall b, In b rest -> url_key (parse b) = url_key (parse asset) ->
            parse b = parse asset) as Hinj'.
  { intros b Hb. apply Hinj. by right. }
  assert (forall b, In b rest -> url_key (parse b) = url_key (parse asset) ->
            fetch w (asset_request parse b) = FetchResolved (Some resp)) as Hsame.
  { intros b Hb E. unfold asset_request. by rewrite (Hinj' b Hb E). }
  destruct Hin as [->|Hin].
  - pose proof (cache_assets_keeps rest
                  (store_entry CACHE_NAME (url_key (parse asset)) resp cs)
                  (url_key (parse asset)) resp) as Hkeep.
    rewrite has_cache_store, (cache_of_store_same _ _ _ _ Hh), lookup_insert_eq in Hkeep.
    specialize (Hkeep Hh eq_refl Hsame).
    rewrite cache_assets_cons, cache_add_run. cbv zeta.
    rewrite Hok, Hadd, Hput.
    destruct (cache_assets parse w rest _) as [[b cs2] t2]. exact Hkeep.
  - loop_turn IH; simpl; try congruence; try by apply IH.
    + apply IH; try done. by rewrite has_cache_store.
    + destruct (Hno a); [by left | exact Hf].
Qed.

End Install.

Lemma install_outcome (parse : string -> URL) (w : World) (cs : CacheStorage) :
  outcome_of (install_listener parse w cs) = SkippedWaiting <->
  outcome_of (cache_assets parse w ASSETS_TO_CACHE (open_cache CACHE_NAME cs)) = true.
Proof.
  rewrite install_run.
  destruct (cache_assets parse w ASSETS_TO_CACHE (open_cache CACHE_NAME cs))
    as [[[|] cs2] t2]; unfold outcome_of; simpl; split; congruence.
Qed.

Lemma install_events (parse : string -> URL) (w : World) (cs : CacheStorage) :
  fetched (events_of (install_listener parse w cs))
  = fetched (events_of (cache_assets parse w ASSETS_TO_CACHE (open_cache CACHE_NAME cs))) /\
  puts (events_of (install_listener parse w cs))
  = puts (events_of (cache_assets parse w ASSETS_TO_CACHE (open_cache CACHE_NAME cs))) /\
  reported (events_of (install_listener parse w cs))
  = reported (events_of (cache_assets parse w ASSETS_TO_CACHE (open_cache CACHE_NAME cs))) /\
  caches_of (install_listener parse w cs)
  = caches_of (cache_assets parse w ASSETS_TO_CACHE (open_cache CACHE_NAME cs)).
Proof.
  rewrite install_run.
  destruct (cache_assets parse w ASSETS_TO_CACHE (open_cache CACHE_NAME cs))
    as [[b cs2] t2]; unfold events_of, caches_of; simpl.
  rewrite fetched_app, puts_app, reported_app.
  by destruct b; simpl; rewrite !app_nil_r.
Qed.

(** X18. Installation reaches [self.skipWaiting()] exactly when no asset's
    fetch stays pending for ever: a rejected fetch, a response with a bad
    status or a storage that refuses the write never aborts the
    installation. *)
Theorem install_completes_unless_a_fetch_hangs
    (parse : string -> URL) (w : World) (cs : CacheStorage) :
  outcome_of (install_listener parse w cs) = SkippedWaiting <->
  forall asset, In asset ASSETS_TO_CACHE ->
                fetch w (asset_request parse asset) <> FetchPending.
Proof. rewrite install_outcome. apply cache_assets_completes. Qed.

(** X19. When no fetch hangs, installation requests every asset of
    [ASSETS_TO_CACHE] exactly once and in order, whichever of them fail:
    a failure on one asset does not stop the warm-up of the others. *)
Theorem install_requests_every_asset
    (parse : string -> URL) (w : World) (cs : CacheStorage) :
  (forall asset, In asset ASSETS_TO_CACHE ->
                 fetch w (asset_request parse asset) <> FetchPending) ->
  fetched (events_of (install_listener parse w cs))
  = map (asset_request parse) ASSETS_TO_CACHE.
Proof.
  intros Hno. rewrite (proj1 (install_events parse w cs)).
  by apply cache_assets_fetched.
Qed.

Lemma install_requests_every_asset_witness :
  fetched (events_of (install_listener shell_parse offline []))
  = [asset_request shell_parse "/"; asset_request shell_parse fonts_url].
Proof.
  apply (install_requests_every_asset shell_parse offline []).
  intros asset _. discriminate.
Defined.

(** X20. When no fetch hangs, every asset that could not be added is
    reported with [console.error], under the message that names the asset
    and with the error of the failure: the error of the rejected fetch,
    or a [TypeError] when the response has a status [cache.add] does not
    accept. *)
Theorem install_reports_failed_assets
    (parse : string -> URL) (w : World) (cs : CacheStorage) (asset err : string) :
  (forall a, In a ASSETS_TO_CACHE ->
             fetch w (asset_request parse a) <> FetchPending) ->
  In asset ASSETS_TO_CACHE ->
  fetch w (asset_request parse asset) = FetchRejected err \/
  (err = "TypeError" /\
   exists resp, fetch w (asset_request parse asset) = FetchResolved (Some resp) /\
                addable resp = false) ->
  In ("[SW] Failed to cache: " +:+ asset, err)
     (reported (events_of (install_listener parse w cs))).
Proof.
  intros Hno Hin Hfail.
  rewrite (proj1 (proj2 (proj2 (install_events parse w cs)))).
  by apply cache_assets_reported.
Qed.

Lemma install_reports_failed_assets_witness :
  In ("[SW] Failed to cache: " +:+ fonts_url, "TypeError: Failed to fetch")
     (reported
        (events_of (install_listener shell_parse (own_origin_only (ok200 "index")) []))) /\
  In ("[SW] Failed to cache: /", "TypeError")
     (reported (events_of (install_listener shell_parse (online redirect) []))).
Proof.
  split.
  - apply (install_reports_failed_assets shell_parse (own_origin_only (ok200 "index"))
             [] fonts_url "TypeError: Failed to fetch").
    + intros a [<-|[<-|[]]]; discriminate.
    + right; left. reflexivity.
    + left. reflexivity.
  - apply (install_reports_failed_assets shell_parse (online redirect) [] "/" "TypeError").
    + intros a _. discriminate.
    + left. reflexivity.
    + right. split; [reflexivity|]. exists redirect. split; reflexivity.
Defined.

(** X21. Installation writes to the shell partition only: every write it
    attempts targets [quran-reciter-v12], is keyed by the request of one
    of the assets and stores the answer to that request, which has an ok
    status other than 206; the contents of every other partition are left
    as they were. *)
Theorem install_writes_shell_partition_only
    (parse : string -> URL) (w : World) (cs : CacheStorage) :
  (forall name key resp,
      In (name, key, resp) (puts (events_of (install_listener parse w cs))) ->
      name = CACHE_NAME /\
      200 <= status resp <= 299 /\ status resp <> 206 /\
      exists asset,
        In asset ASSETS_TO_CACHE /\
        key = ByRequest (asset_request parse asset) /\
        fetch w (asset_request parse asset) = FetchResolved (Some resp)) /\
  (forall name,
      name <> CACHE_NAME ->
      cache_of name (caches_of (install_listener parse w cs)) = cache_of name cs).
Proof.
  destruct (install_events parse w cs) as (_ & Hp & _ & Hc). split.
  - intros name key resp H. rewrite Hp in H.
    apply cache_assets_puts in H as (Hn & Ha & Hasset).
    split; [exact Hn|].
    unfold addable in Ha.
    apply andb_true_iff in Ha as [Ha H206].
    apply andb_true_iff in Ha as [Hlo Hhi].
    apply Z.leb_le in Hlo. apply Z.leb_le in Hhi.
    apply negb_true_iff, Z.eqb_neq in H206. auto.
  - intros name Hne. rewrite Hc.
    by rewrite cache_assets_frame, cache_of_open.
Qed.

(** X22. Warm-up round trip: when no fetch hangs and the storage takes
    writes, an asset whose fetch resolved with an acceptable response is
    found afterwards in the shell partition under its URL, provided no
    other asset is filed under the same URL. *)
Theorem install_stores_fetched_asset
    (parse : string -> URL) (w : World) (cs : CacheStorage)
    (asset : string) (resp : Response) :
  put_error w = None ->
  (forall a, In a ASSETS_TO_CACHE ->
             fetch w (asset_request parse a) <> FetchPending) ->
  In asset ASSETS_TO_CACHE ->
  fetch w (asset_request parse asset) = FetchResolved (Some resp) ->
  addable resp = true ->
  (forall b, In b ASSETS_TO_CACHE ->
             url_key (parse b) = url_key (parse asset) -> parse b = parse asset) ->
  lookup_request
    (cache_of CACHE_NAME (caches_of (install_listener parse w cs)))
    (asset_request parse asset)
  = Some resp.
Proof.
  intros Hput Hno Hin Hok Hadd Hinj.
  rewrite (proj2 (proj2 (proj2 (install_events parse w cs)))).
  unfold lookup_request.
  change (request_key (asset_request parse asset))
    with (Some (url_key (parse asset))).
  apply cache_assets_stores; try done. apply has_cache_open.
Qed.

Lemma shell_parse_keys (b : string) :
  In b ASSETS_TO_CACHE ->
  url_key (shell_parse b) = url_key (shell_parse "/") ->
  shell_parse b = shell_parse "/".
Proof. intros [<-|[<-|[]]]; [done|]. vm_compute. discriminate. Qed.

Lemma install_stores_fetched_asset_witness :
  lookup_request
    (cache_of CACHE_NAME
       (caches_of (install_listener shell_parse (own_origin_only (ok200 "index")) [])))
    (asset_request shell_parse "/")
  = Some (ok200 "index").
Proof.
  apply (install_stores_fetched_asset shell_parse (own_origin_only (ok200 "index")) []
           "/" (ok200 "index")).
  - reflexivity.
  - intros a [<-|[<-|[]]]; discriminate.
  - left. reflexivity.
  - reflexivity.
  - reflexivity.
  - exact shell_parse_keys.
Defined.

Lemma cache_assets_names (parse : string -> URL) (w : World)
    (assets : list string) (cs : CacheStorage) :
  cache_names (caches_of (cache_assets parse w assets cs)) = cache_names cs.
Proof.
  revert cs. induction assets as [|a rest IH]; intros cs; [reflexivity|].
  rewrite cache_assets_cons, cache_add_run. cbv zeta.
  destruct (fetch w (asset_request parse a)) as [[resp|]|err|];
    [destruct (addable resp); [destruct (put_error w)|]|..];
    try (specialize (IH cs); destruct (cache_assets parse w rest cs) as [[b cs2] t2];
         exact IH);
    [|reflexivity].
  specialize (IH (store_entry CACHE_NAME (url_key (parse a)) resp cs)).
  destruct (cache_assets parse w rest _) as [[b cs2] t2].
  unfold caches_of in *. simpl in *. by rewrite IH, cache_names_store.
Qed.

(** X23. Offline app shell: after an installation into an empty storage
    in which the fetch of [/] resolved with an acceptable response (no
    fetch hanging, the storage taking writes, the other asset filed under
    another URL), a GET request of the default branch for that URL is
    answered with the installed response, whatever the network does. *)
Theorem fresh_install_serves_shell_offline
    (parse : string -> URL) (w w' : World) (r : Request) (resp : Response) :
  put_error w = None ->
  (forall a, In a ASSETS_TO_CACHE ->
             fetch w (asset_request parse a) <> FetchPending) ->
  fetch w (asset_request parse "/") = FetchResolved (Some resp) ->
  addable resp = true ->
  (forall b, In b ASSETS_TO_CACHE ->
             url_key (parse b) = url_key (parse "/") -> parse b = parse "/") ->
  classify r = Default ->
  method r = "GET" ->
  url_key (url r) = url_key (parse "/") ->
  outcome_of (fetch_listener w' r (caches_of (install_listener parse w [])))
  = Fulfilled (Some resp).
Proof.
  intros Hput Hno Hok Hadd Hinj Hc Hm Hu.
  rewrite fetch_listener_classify, Hc. apply swr_outcome_hit.
  rewrite (proj2 (proj2 (proj2 (install_events parse w [])))).
  pose proof (cache_assets_stores parse w ASSETS_TO_CACHE (open_cache CACHE_NAME [])
                "/" resp eq_refl Hput Hno (or_introl eq_refl) Hok Hadd Hinj) as Hl.
  pose proof (cache_assets_names parse w ASSETS_TO_CACHE (open_cache CACHE_NAME []))
    as Hn.
  destruct (caches_of (cache_assets parse w ASSETS_TO_CACHE (open_cache CACHE_NAME [])))
    as [|[n c] [|]]; try discriminate Hn.
  inversion Hn. subst n. simpl in Hl. cbn [lookup_all].
  unfold lookup_request, request_key. rewrite Hm.
  change (String.eqb "GET" "GET") with true. cbv iota.
  by rewrite Hu, Hl.
Qed.

Lemma fresh_install_serves_shell_offline_witness :
  outcome_of
    (fetch_listener offline root_page
       (caches_of (install_listener shell_parse (own_origin_only (ok200 "index")) [])))
  = Fulfilled (Some (ok200 "index")).
Proof.
  apply (fresh_install_serves_shell_offline shell_parse
           (own_origin_only (ok200 "index")) offline root_page (ok200 "index")).
  - reflexivity.
  - intros a [<-|[<-|[]]]; discriminate.
  - reflexivity.
  - reflexivity.
  - exact shell_parse_keys.
  - reflexivity.
  - reflexivity.
  - reflexivity.
Defined.
